(** * cpppo.server.enip.poll: a shallow embedding of the polling scheduler

    The module [server/enip/poll.py] has three layers: [execute] performs one
    read through a gateway, [loop] wraps it in cadence bookkeeping, and [run]
    drives [loop] forever with exponential back-off.  This file embeds the
    three functions and proves properties about them.

    Conventions of the embedding:
    - Python numbers (the readings of [timer()], cycle times, back-off delays)
      are floats, that is IEEE 754 binary64 numbers.  A finite binary64 number
      is a rational, so the numbers are kept in [Q], and every arithmetic
      operation of the code ([+], [-], [*], [/], [//]) is the exact operation
      followed by rounding to the nearest binary64 number, ties to even
      ([round64]).  Comparisons are exact.  Infinities and NaN are not
      represented: a result beyond the largest binary64 number stays finite.
      [==] is equality of rationals.
    - [None] is [None] of an [option]; an argument that may be [None] has an
      option type.
    - The outside world (clock, gateway, callbacks) is deterministic but
      arbitrary: the clock is a sequence of readings, the gateway answers the
      n-th poll through functions of n, and everything the program does to the
      outside is appended to a trace of events.
    - Exceptions are values of [Exc]; code that can raise lives in the monad
      [M], which threads the world and an error. *)

From Stdlib Require Import Ascii String DecimalString QArith Qround Qminmax Qpower ZArith List Bool Lia Lqa.
Import ListNotations.
Open Scope Q_scope.

(** ** Python values used by the module *)

(** A parameter is a logical name ('Output Current') or a raw CIP
    ('<address>', '<type>') pair. *)
Inductive Param : Type :=
| PName (name : string)
| PAddr (address type : string).

(** What the gateway's [parameter_substitution] produces and [read] consumes. *)
Definition Address : Type := (string * string)%type.

(** A polled value; the poller never looks inside it. *)
Inductive Value : Type :=
| VNone
| VNum (q : Q)
| VSeq (qs : list Q).

(** Exception classes.  [KeyboardInterrupt] and [SystemExit] derive from
    [BaseException] only; the others derive from [Exception]. *)
Inductive ExcClass : Type :=
| TypeError | ValueError | KeyError | IOError | AssertionError | RuntimeError
| KeyboardInterrupt | SystemExit.

Record Exc : Type := mkExc { exc_class : ExcClass; exc_msg : string }.

(** [isinstance( exc, Exception )], what [except Exception] tests. *)
Definition is_Exception (e : Exc) : bool :=
  match exc_class e with
  | KeyboardInterrupt | SystemExit => false
  | _ => true
  end.

(** Default poll params list (lines 52-55). *)
Definition PARAMS : list Param :=
  [ PName "Output Current"; PName "Motor Velocity" ].

(** ** Numbers *)

Definition Qltb (x y : Q) : bool := negb (Qle_bool y x).

(** Truthiness of a number: [bool( x )]. *)
Definition truthy (x : Q) : bool := negb (Qeq_bool x 0).

(** [max( a, b )]: the first argument unless the second is strictly greater. *)
Definition py_max (a b : Q) : Q := if Qltb a b then b else a.

(** [min( a, b )]: the first argument unless the second is strictly smaller. *)
Definition py_min (a b : Q) : Q := if Qltb b a then b else a.

(** *** Float arithmetic *)

(** The integer nearest to [n / d], ties to the even one ([0 <= n], [0 < d]). *)
Definition round_half_even (n d : Z) : Z :=
  let q := (n / d)%Z in
  match (2 * (n mod d) ?= d)%Z with
  | Lt => q
  | Gt => (q + 1)%Z
  | Eq => if Z.even q then q else (q + 1)%Z
  end.

(** The binary exponent of [a / d]: the floor of its logarithm to base 2
    ([0 < a], [0 < d]). *)
Definition binade (a d : Z) : Z :=
  let k := (Z.log2 a - Z.log2 d)%Z in
  if (0 <=? k)%Z
  then (if (d * 2 ^ k <=? a)%Z then k else k - 1)%Z
  else (if (d <=? a * 2 ^ (- k))%Z then k else k - 1)%Z.

(** [a / d > 0] rounded to binary64: a significand of 53 bits and a unit in
    the last place of at least [2 ^ -1074] (the subnormal numbers). *)
Definition round64_pos (a d : Z) : Q :=
  let e := Z.max (binade a d - 52) (-1074) in
  if (0 <=? e)%Z
  then inject_Z (round_half_even a (d * 2 ^ e) * 2 ^ e)
  else Qmake (round_half_even (a * 2 ^ (- e)) d) (Z.to_pos (2 ^ (- e))).

(** Rounding to the nearest binary64 number; the result is in lowest terms. *)
Definition round64 (q : Q) : Q :=
  Qred match Qnum q with
       | Z0 => 0
       | Zpos _ => round64_pos (Qnum q) (Zpos (Qden q))
       | Zneg _ => - round64_pos (- Qnum q) (Zpos (Qden q))
       end.

(** [x + y], [x - y], [x * y] and [x / y] on floats. *)
Definition fadd (x y : Q) : Q := round64 (x + y).
Definition fsub (x y : Q) : Q := round64 (x - y).
Definition fmul (x y : Q) : Q := round64 (x * y).
Definition fdiv (x y : Q) : Q := round64 (x / y).

(** C's [fmod( x, y )]: the remainder of the quotient truncated towards
    zero, with the sign of [x].  On binary64 numbers it is exact. *)
Definition Qtruncate (q : Q) : Z := if Qle_bool 0 q then Qfloor q else Qceiling q.

Definition fmod (x y : Q) : Q := round64 (x - y * inject_Z (Qtruncate (x / y))).

(** [vx // wx] on floats, as CPython computes it (float_divmod): the quotient
    is taken from the exact remainder, and snapped to the nearest whole
    number.  A zero divisor raises ZeroDivisionError in Python; [loop] never
    divides by zero, since a zero cycle has been replaced by 1.0 before. *)
Definition floordiv (vx wx : Q) : Q :=
  let mod_ := fmod vx wx in
  let div := fdiv (fsub vx mod_) wx in
  let div := if truthy mod_ && negb (Bool.eqb (Qltb wx 0) (Qltb mod_ 0))
             then fsub div 1
             else div in
  if truthy div then
    let floordiv := inject_Z (Qfloor div) in
    if Qltb (1 # 2) (fsub div floordiv) then fadd floordiv 1 else floordiv
  else 0.

(** ** The world *)

Inductive Level : Type := INFO | NORMAL | DETAIL.

(** The log records the module emits, with the arguments of their format
    strings. *)
Inductive Message : Type :=
| Premature (dt cycle : Q)
| Missed (missed past cycle : Q)
| PollingStarted (into cycle : Q)
| PollingFinished (into cycle duration : Q) (tps : option Q)
| PollingFailure (backoff : Q) (exc : Exc)
| PollingBackoff (backoff : Q) (exc : Exc).

Inductive Event : Type :=
| Log (level : Level) (msg : Message)
| Read (addresses : list Address)
| CloseGateway
| Sleep (seconds : Q)
| Process (p : Param) (v : Value)
| Failure (exc : Exc).

(** The mutable part of the world: how many clock readings, polls and
    [process.done] inspections have happened, and the trace so far (oldest
    event first). *)
Record World : Type := mkWorld {
  ticks : nat;
  polls : nat;
  checks : nat;
  trace : list Event
}.

Definition world0 : World := mkWorld 0 0 0 [].

(** The gateway ('via').  Both methods may answer differently at each poll:
    the first argument is the number of polls issued before this one.
    [read] is a generator: it yields the listed values and then either stops
    ([None]) or raises. *)
Record Gateway : Type := mkGateway {
  parameter_substitution : nat -> list Param -> option bool -> Exc + list Address;
  read : nat -> list Address -> list Value * option Exc
}.

(** The [process] object: calling it may raise, and it may carry a [done]
    attribute, whose value can change between two inspections ([None] when
    the object has no such attribute). *)
Record Processor : Type := mkProcessor {
  process_call : Param -> Value -> option Exc;
  process_done : nat -> option bool
}.

(** The [failure] callback: calling it may raise. *)
Definition FailureCallback : Type := Exc -> option Exc.

(** ** The monad of effectful code *)

Inductive Result (A : Type) : Type :=
| Ok (a : A)
| Raise (e : Exc).
Arguments Ok {A} a.
Arguments Raise {A} e.

Definition M (A : Type) : Type := World -> Result A * World.

Definition ret {A} (a : A) : M A := fun w => (Ok a, w).

Definition raise {A} (e : Exc) : M A := fun w => (Raise e, w).

Definition bind {A B} (m : M A) (k : A -> M B) : M B :=
  fun w => match m w with
           | (Ok a, w') => k a w'
           | (Raise e, w') => (Raise e, w')
           end.

Notation "x <- m ;; k" := (bind m (fun x => k))
  (at level 61, m at next level, right associativity).
Notation "m ;;; k" := (bind m (fun _ => k))
  (at level 61, right associativity).

Definition emit (e : Event) : M unit :=
  fun w => (Ok tt, mkWorld (ticks w) (polls w) (checks w) (trace w ++ [e])).

(** [timer()]: the next reading of the clock. *)
Definition timer (clock : nat -> Q) : M Q :=
  fun w => (Ok (clock (ticks w)),
            mkWorld (S (ticks w)) (polls w) (checks w) (trace w)).

(** The index of the poll about to be issued; the next one gets the next
    index. *)
Definition next_poll : M nat :=
  fun w => (Ok (polls w), mkWorld (ticks w) (S (polls w)) (checks w) (trace w)).

(** The index of the [process.done] inspection about to be made. *)
Definition next_check : M nat :=
  fun w => (Ok (checks w), mkWorld (ticks w) (polls w) (S (checks w)) (trace w)).

(** [time.sleep( seconds )]; a negative length is refused with ValueError. *)
Definition sleep (seconds : Q) : M unit :=
  if Qltb seconds 0
  then raise (mkExc ValueError "sleep length must be non-negative")
  else emit (Sleep seconds).

(** ** execute (lines 57-71) *)

(** [params or PARAMS]: [None] and the empty list are falsy. *)
Definition params_or_PARAMS (params : option (list Param)) : list Param :=
  match params with
  | None => PARAMS
  | Some [] => PARAMS
  | Some ps => ps
  end.

(** [zip( params, reader )] where the reader yields [values] and then ends
    as [ending] says.  zip asks the parameters first, so a reader that would
    raise after the last parameter is never asked; it stops silently at the
    end of the shorter one, and an exception of the reader comes out when the
    reader is asked.  The result is what the generator yields and how it
    ends. *)
Fixpoint zip_reader (params : list Param) (values : list Value)
    (ending : option Exc) : list (Param * Value) * option Exc :=
  match params with
  | [] => ([], None)
  | p :: params' =>
      match values with
      | [] => ([], ending)
      | v :: values' =>
          let (rest, e) := zip_reader params' values' ending in
          ((p, v) :: rest, e)
      end
  end.

(** [execute( via, params, pass_thru )] as the [n]-th poll of the gateway: the
    pairs the generator yields, and the exception it ends with, if any. *)
Definition execute (via : Gateway) (n : nat) (params : option (list Param))
    (pass_thru : option bool) : list (Param * Value) * option Exc :=
  match parameter_substitution via n (params_or_PARAMS params) pass_thru with
  | inl e => ([], Some e)
  | inr addresses =>
      let (values, ending) := read via n addresses in
      zip_reader (params_or_PARAMS params) values ending
  end.

(** The addresses of the one read that [execute] issues, if substitution
    succeeds. *)
Definition execute_read (via : Gateway) (n : nat) (params : option (list Param))
    (pass_thru : option bool) : option (list Address) :=
  match parameter_substitution via n (params_or_PARAMS params) pass_thru with
  | inl _ => None
  | inr addresses => Some addresses
  end.

(** ** loop (lines 74-127) *)

(** The keyword arguments that [run] and [loop] pass down. *)
Record Kwds : Type := mkKwds {
  kw_cycle : option Q;
  kw_params : option (list Param);
  kw_pass_thru : option bool
}.

(** Lines 92-93: [if not cycle: cycle = 1.0]. *)
Definition effective_cycle (cycle : option Q) : Q :=
  match cycle with
  | Some c => if truthy c then c else 1
  | None => 1
  end.

(** Lines 94-108: where we are in the poll cycle.  [last_poll = None] makes
    the subtraction on line 95 raise TypeError.  Returns the reading taken
    and the advanced [last_poll]. *)
Definition loop_cadence (clock : nat -> Q) (cycle : Q) (last_poll : option Q)
    : M (Q * Q) :=
  init_poll <- timer clock ;;
  match last_poll with
  | None =>
      raise (mkExc TypeError "unsupported operand type(s) for -: 'float' and 'NoneType'")
  | Some last =>
      let dt := fsub init_poll last in
      if Qltb dt cycle then
        emit (Log INFO (Premature dt cycle)) ;;;
        ret (init_poll, last)
      else
        let missed := floordiv dt cycle in
        if truthy last then
          (if Qltb 1 missed
           then emit (Log NORMAL (Missed missed (fsub dt cycle) cycle))
           else ret tt) ;;;
          ret (init_poll, fadd last (fmul cycle missed))
        else
          ret (init_poll, init_poll)
  end.

(** Modelled from the spec: the gateway's context manager, whose [__exit__]
    is not in this module.  [with via: body] runs the body; an exception
    raised in it makes the gateway close its session and then passes on. *)
Definition with_via {A} (body : M A) : M A :=
  fun w => match body w with
           | (Ok a, w') => (Ok a, w')
           | (Raise e, w') => (emit CloseGateway ;;; raise e) w'
           end.

(** Lines 116-119: the poll itself.  The generator is reified with
    [list( executor )], so an exception discards the pairs already yielded. *)
Definition loop_poll (via : Gateway) (params : option (list Param))
    (pass_thru : option bool) : M (list (Param * Value)) :=
  with_via
    (n <- next_poll ;;
     match execute_read via n params pass_thru with
     | Some addresses => emit (Read addresses)
     | None => ret tt
     end ;;;
     match execute via n params pass_thru with
     | (results, None) => ret results
     | (_, Some e) => raise e
     end).

(** [loop( via, cycle, last_poll, **kwds )]: the start of the poll cycle,
    the delay until the next one, and the pairs polled. *)
Definition loop (clock : nat -> Q) (via : Gateway) (cycle : option Q)
    (last_poll : option Q) (params : option (list Param))
    (pass_thru : option bool) : M (Q * Q * list (Param * Value)) :=
  let cycle := effective_cycle cycle in
  started <- loop_cadence clock cycle last_poll ;;
  let init_poll := fst started in
  let last_poll := snd started in
  emit (Log INFO (PollingStarted (fsub init_poll last_poll) cycle)) ;;;
  results <- loop_poll via params pass_thru ;;
  done_poll <- timer clock ;;
  let duration := fsub done_poll init_poll in
  emit (Log INFO (PollingFinished (fsub done_poll last_poll) cycle duration
                    (if truthy duration then Some (fdiv 1 duration) else None))) ;;;
  ret (last_poll, py_max 0 (fsub (fadd last_poll cycle) done_poll), results).

(** ** run (lines 130-180) *)

(** The back-off settings after the defaults of lines 144-153. *)
Record Settings : Type := mkSettings {
  backoff_min : Q;
  backoff_multiplier : Q;
  backoff_max : Q;
  latency : Q
}.

(** Lines 144-153.  [kwds.get( 'cycle' )] is [None] when no cycle was given;
    each default applies only to an argument that [is None]. *)
Definition run_defaults (backoff_min backoff_multiplier backoff_max latency : option Q)
    (kwds : Kwds) : Settings :=
  let backoff_min :=
    match backoff_min with
    | Some b => b
    | None => match kw_cycle kwds with
              | Some c => c
              | None => 1
              end
    end in
  let backoff_max :=
    match backoff_max with
    | Some b => b
    | None => fmul backoff_min 10
    end in
  let backoff_multiplier :=
    match backoff_multiplier with
    | Some m => m
    | None => 3 # 2
    end in
  let latency :=
    match latency with
    | Some l => l
    | None => 1 # 2
    end in
  mkSettings backoff_min backoff_multiplier backoff_max latency.

(** The local variables of [run] that live across iterations.  [backoff] is
    [None] after a successfully completed poll. *)
Record RunState : Type := mkRunState {
  backoff : option Q;
  lst : Q;
  dly : Q;
  beg : Q
}.

Definition set_backoff (b : option Q) (st : RunState) : RunState :=
  mkRunState b (lst st) (dly st) (beg st).
Definition set_lst_dly (l d : Q) (st : RunState) : RunState :=
  mkRunState (backoff st) l d (beg st).
Definition set_dly (d : Q) (st : RunState) : RunState :=
  mkRunState (backoff st) (lst st) d (beg st).
Definition set_beg (b : Q) (st : RunState) : RunState :=
  mkRunState (backoff st) (lst st) (dly st) b.

(** Line 158: [not hasattr( process, 'done' ) or not process.done]. *)
Definition run_condition (process : Processor) : M bool :=
  i <- next_check ;;
  ret (match process_done process i with
       | Some true => false
       | _ => true
       end).

(** Lines 167-168: [for p,v in res: process( p, v )]. *)
Fixpoint process_all (process : Processor) (res : list (Param * Value)) : M unit :=
  match res with
  | [] => ret tt
  | (p, v) :: res' =>
      emit (Process p v) ;;;
      match process_call process p v with
      | None => process_all process res'
      | Some e => raise e
      end
  end.

(** Lines 166-169, the body of the [try].  An exception leaves the local
    variables as they are at that point, so the result carries them both ways:
    when [loop] raises nothing has been assigned, when [process] raises [lst]
    and [dly] already hold what [loop] returned. *)
Definition run_try (clock : nat -> Q) (via : Gateway) (process : Processor)
    (kwds : Kwds) (st : RunState) : World -> (Result unit * RunState) * World :=
  fun w =>
    match loop clock via (kw_cycle kwds) (Some (lst st)) (kw_params kwds)
               (kw_pass_thru kwds) w with
    | (Raise e, w1) => ((Raise e, st), w1)
    | (Ok (lst', dly', res), w1) =>
        let st1 := set_lst_dly lst' dly' st in
        match process_all process res w1 with
        | (Raise e, w2) => ((Raise e, st1), w2)
        | (Ok _, w2) => ((Ok tt, set_backoff None st1), w2)
        end
    end.

(** The back-off after one more failure (lines 171-175). *)
Definition next_backoff (s : Settings) (backoff : option Q) : Q :=
  match backoff with
  | None => backoff_min s
  | Some b => py_min (fmul b (backoff_multiplier s)) (backoff_max s)
  end.

(** Lines 171-179, the body of the [except]. *)
Definition run_except (s : Settings) (failure : option FailureCallback)
    (exc : Exc) (st : RunState) : M RunState :=
  let b := next_backoff s (backoff st) in
  match backoff st with
  | None => emit (Log NORMAL (PollingFailure b exc))
  | Some _ => emit (Log DETAIL (PollingBackoff b exc))
  end ;;;
  match failure with
  | None => ret tt
  | Some f =>
      emit (Failure exc) ;;;
      match f exc with
      | None => ret tt
      | Some e => raise e
      end
  end ;;;
  ret (set_dly b (set_backoff (Some b) st)).

(** What one pass through the [while] did. *)
Inductive Iteration : Type :=
| Finished                (* the condition was false: [run] returns *)
| Waited                  (* slept and [continue]d *)
| Polled                  (* the [try] ran to its end *)
| Failed (exc : Exc).     (* the [except] ran *)

(** Lines 165-179: the [try] statement. *)
Definition run_poll (clock : nat -> Q) (via : Gateway) (process : Processor)
    (failure : option FailureCallback) (s : Settings) (kwds : Kwds)
    (st : RunState) : M (Iteration * RunState) :=
  fun w =>
    match run_try clock via process kwds st w with
    | ((Ok _, st'), w') => (Ok (Polled, st'), w')
    | ((Raise e, st'), w') =>
        if is_Exception e
        then (st'' <- run_except s failure e st' ;; ret (Failed e, st'')) w'
        else (Raise e, w')
    end.

(** Lines 158-180: the condition and one pass through the body. *)
Definition run_iteration (clock : nat -> Q) (via : Gateway) (process : Processor)
    (failure : option FailureCallback) (s : Settings) (kwds : Kwds)
    (st : RunState) : M (Iteration * RunState) :=
  go_on <- run_condition process ;;
  if negb go_on then ret (Finished, st) else
  now <- timer clock ;;
  let ela := fsub now (beg st) in
  if Qltb ela (dly st) then
    sleep (py_min (latency s) (fsub (dly st) ela)) ;;;
    ret (Waited, st)
  else
    r <- run_poll clock via process failure s kwds st ;;
    now' <- timer clock ;;
    ret (fst r, set_beg now' (snd r)).

(** How [run] stands after a bounded number of passes. *)
Inductive Outcome : Type :=
| Returned
| Running (st : RunState).

(** The [while] loop, for at most [fuel] passes. *)
Fixpoint run_loop (fuel : nat) (clock : nat -> Q) (via : Gateway)
    (process : Processor) (failure : option FailureCallback) (s : Settings)
    (kwds : Kwds) (st : RunState) : M Outcome :=
  match fuel with
  | O => ret (Running st)
  | S fuel' =>
      r <- run_iteration clock via process failure s kwds st ;;
      match fst r with
      | Finished => ret Returned
      | _ => run_loop fuel' clock via process failure s kwds (snd r)
      end
  end.

(** The passes of the same loop, each with the local variables after it; the
    list ends where [run] returns, where an exception leaves [run], or where
    the fuel does. *)
Fixpoint run_history (fuel : nat) (clock : nat -> Q) (via : Gateway)
    (process : Processor) (failure : option FailureCallback) (s : Settings)
    (kwds : Kwds) (st : RunState) (w : World) : list (Iteration * RunState) :=
  match fuel with
  | O => []
  | S fuel' =>
      match run_iteration clock via process failure s kwds st w with
      | (Raise _, _) => []
      | (Ok (Finished, st'), _) => [(Finished, st')]
      | (Ok (it, st'), w') =>
          (it, st') :: run_history fuel' clock via process failure s kwds st' w'
      end
  end.

(** Lines 155-157: the local variables before the first pass. *)
Definition run_init (clock : nat -> Q) : M RunState :=
  now <- timer clock ;;
  ret (mkRunState None 0 0 now).

(** The optional arguments of [run]. *)
Record RunArgs : Type := mkRunArgs {
  arg_backoff_min : option Q;
  arg_backoff_multiplier : option Q;
  arg_backoff_max : option Q;
  arg_latency : option Q
}.

Definition run_settings (args : RunArgs) (kwds : Kwds) : Settings :=
  run_defaults (arg_backoff_min args) (arg_backoff_multiplier args)
               (arg_backoff_max args) (arg_latency args) kwds.

(** [run( via, process, failure, ..., **kwds )], for at most [fuel] passes of
    its loop. *)
Definition run (fuel : nat) (clock : nat -> Q) (via : Gateway)
    (process : Processor) (failure : option FailureCallback) (args : RunArgs)
    (kwds : Kwds) : M Outcome :=
  st <- run_init clock ;;
  run_loop fuel clock via process failure (run_settings args kwds) kwds st.

(** The passes of [run], as [run_history] lists them. *)
Definition run_passes (fuel : nat) (clock : nat -> Q) (via : Gateway)
    (process : Processor) (failure : option FailureCallback) (args : RunArgs)
    (kwds : Kwds) (w : World) : list (Iteration * RunState) :=
  match run_init clock w with
  | (Ok st, w') =>
      run_history fuel clock via process failure (run_settings args kwds) kwds st w'
  | (Raise _, _) => []
  end.

(** [loop] called again and again as its docstring asks: each call is given
    the start of poll cycle that the call before returned.  The result lists
    the starts returned. *)
Fixpoint loop_repeatedly (calls : nat) (clock : nat -> Q) (via : Gateway)
    (cycle : option Q) (last_poll : Q) (params : option (list Param))
    (pass_thru : option bool) : M (list Q) :=
  match calls with
  | O => ret []
  | S calls' =>
      r <- loop clock via cycle (Some last_poll) params pass_thru ;;
      let last' := fst (fst r) in
      rest <- loop_repeatedly calls' clock via cycle last' params pass_thru ;;
      ret (last' :: rest)
  end.

(** ** Quantities the statements speak of

    These name parts of what the functions above compute, so that lemmas can
    state the result of a call in one equation. *)

(** The start of poll cycle that lines 96-108 arrive at. *)
Definition advanced (cycle last init_poll : Q) : Q :=
  if Qltb (fsub init_poll last) cycle then last
  else if truthy last
       then fadd last (fmul cycle (floordiv (fsub init_poll last) cycle))
  else init_poll.

(** What lines 96-108 log. *)
Definition cadence_notes (cycle last init_poll : Q) : list Event :=
  let dt := fsub init_poll last in
  if Qltb dt cycle then [Log INFO (Premature dt cycle)]
  else if truthy last && Qltb 1 (floordiv dt cycle)
       then [Log NORMAL (Missed (floordiv dt cycle) (fsub dt cycle) cycle)]
       else [].

Definition read_events (via : Gateway) (n : nat) (params : option (list Param))
    (pass_thru : option bool) : list Event :=
  match execute_read via n params pass_thru with
  | Some addresses => [Read addresses]
  | None => []
  end.

(** The record of lines 123-124. *)
Definition finished_note (cycle last' init_poll done_poll : Q) : Event :=
  let duration := fsub done_poll init_poll in
  Log INFO (PollingFinished (fsub done_poll last') cycle duration
              (if truthy duration then Some (fdiv 1 duration) else None)).

(** The calls of [process] for a list of pairs. *)
Definition process_events (res : list (Param * Value)) : list Event :=
  map (fun pv => Process (fst pv) (snd pv)) res.

(** The record of line 173 or of line 176. *)
Definition failure_note (s : Settings) (backoff : option Q) (exc : Exc) : Event :=
  match backoff with
  | None => Log NORMAL (PollingFailure (next_backoff s None) exc)
  | Some b => Log DETAIL (PollingBackoff (next_backoff s (Some b)) exc)
  end.

(** What the [except] clause does to the outside. *)
Definition failure_events (s : Settings) (failure : option FailureCallback)
    (backoff : option Q) (exc : Exc) : list Event :=
  match failure with
  | None => [failure_note s backoff exc]
  | Some _ => [failure_note s backoff exc; Failure exc]
  end.

(** The exception that [failure( exc )] raises, if there is a callback and it
    raises. *)
Definition failure_raises (failure : option FailureCallback) (exc : Exc)
    : option Exc :=
  match failure with
  | None => None
  | Some f => f exc
  end.

(** The back-off after [k] more failures in a row, counted from the first:
    multiply, then cap, at each step. *)
Fixpoint backoff_nth (s : Settings) (k : nat) : Q :=
  match k with
  | O => backoff_min s
  | S k' => py_min (fmul (backoff_nth s k') (backoff_multiplier s)) (backoff_max s)
  end.

(** The back-off state after [failures] failures in a row. *)
Definition expected_backoff (s : Settings) (failures : nat) : option Q :=
  match failures with
  | O => None
  | S k => Some (backoff_nth s k)
  end.

(** The number of failures in a row after one more pass. *)
Definition failures_after (it : Iteration) (failures : nat) : nat :=
  match it with
  | Failed _ => S failures
  | Polled => O
  | _ => failures
  end.

(** The back-off sequence in the words of the specification, read along the
    passes of [run]: after the k-th failure in a row (k from 0) the back-off
    and the pending delay are [backoff_nth s k]; a completed poll makes the
    back-off inactive; a pass that only waits changes neither. *)
Fixpoint backoff_follows (s : Settings) (failures : nat)
    (passes : list (Iteration * RunState)) : Prop :=
  match passes with
  | [] => True
  | (it, st) :: rest =>
      let failures' := failures_after it failures in
      backoff st = expected_backoff s failures' /\
      (forall k, failures' = S k -> dly st = backoff_nth s k) /\
      backoff_follows s failures' rest
  end.

(** Every exception that the gateway or [process] raises is an [Exception]. *)
Definition raises_only_Exceptions (via : Gateway) (process : Processor) : Prop :=
  (forall n ps pt e,
      parameter_substitution via n ps pt = inl e -> is_Exception e = true) /\
  (forall n addresses e,
      snd (read via n addresses) = Some e -> is_Exception e = true) /\
  (forall p v e, process_call process p v = Some e -> is_Exception e = true).

(** The [failure] callback, if any, always returns. *)
Definition never_raises (failure : option FailureCallback) : Prop :=
  forall e, failure_raises failure e = None.

(** ** Gateways, clocks and callbacks for the examples *)

(** A clock that gives the listed readings, then 0. *)
Definition readings (l : list Q) : nat -> Q := fun n => nth n l 0.

(** A clock that advances by a third of a second at every reading. *)
Definition clock_thirds : nat -> Q := fun n => fdiv (inject_Z (Z.of_nat n)) 3.

Definition resolve (ps : list Param) : list Address :=
  map (fun _ => ("@0x93/1/10", "REAL")%string) ps.

(** Answers every read with one value per address. *)
Definition gateway_steady : Gateway :=
  mkGateway (fun _ ps _ => inr (resolve ps))
            (fun n addresses =>
               (map (fun _ => VNum (inject_Z (Z.of_nat n))) addresses, None)).


(** Every read fails. *)
Definition gateway_down : Gateway :=
  mkGateway (fun _ ps _ => inr (resolve ps))
            (fun _ _ => ([], Some (mkExc IOError "connection lost"))).


(** A [process] that accepts every pair and has no [done] attribute. *)
Definition process_quiet : Processor :=
  mkProcessor (fun _ _ => None) (fun _ => None).

(** A [process] that refuses 'Motor Velocity' and has no [done] attribute. *)
Definition process_picky : Processor :=
  mkProcessor
    (fun p _ => match p with
                | PName "Motor Velocity" => Some (mkExc KeyError "Motor Velocity")
                | _ => None
                end)
    (fun _ => None).

Definition no_args : RunArgs := mkRunArgs None None None None.


(** Closed statements about numbers, by evaluation. *)
Ltac by_evaluation :=
  vm_compute;
  first [ reflexivity | discriminate
        | let H := fresh in intros H; discriminate H ].

Ltac run_monad :=
  unfold bind, ret, raise, emit, timer, next_poll, next_check; simpl.

(** ** poll (lines 183-227) *)

(** What [json.loads] can produce. *)
#[local] Unset Elimination Schemes.
Inductive Json : Type :=
| JNull
| JBool (b : bool)
| JNum (q : Q)
| JStr (s : string)
| JList (l : list Json)
| JObject (o : list (string * Json)).
#[local] Set Elimination Schemes.

(** The keyword arguments with which [poll] instantiates a proxy class. *)
Record Connection : Type := mkConnection {
  host : string;
  port : Z;
  depth : option Z;
  multiple : option Z;
  timeout : option Q;
  send_path : option string;
  route_path : option Json
}.

(** A proxy class: calling it makes a gateway, or raises. *)
Definition ProxyClass : Type := Connection -> Exc + Gateway.

(** The arguments of [poll]; the four optional arguments that go to [run]
    unchanged and the three that go down to [loop] and [execute] are kept
    together as [run] has them. *)
Record PollArgs : Type := mkPollArgs {
  poll_proxy_class : option ProxyClass;
  poll_address : option (string * Z);
  poll_depth : option Z;
  poll_multiple : option Z;
  poll_timeout : option Q;
  poll_route_path : option Json;
  poll_send_path : option string;
  poll_gateway_class : option ProxyClass;
  poll_via : option Gateway;
  poll_process : option Processor;
  poll_failure : option FailureCallback;
  poll_run_args : RunArgs;
  poll_kwds : Kwds
}.

(** What [warnings.warn] is given. *)
Inductive Warning : Type :=
| PendingDeprecationWarning (msg : string).

(** Lines 219-220: the default [process] prints the pair.  What printing
    does is the caller's console's business ([print_pair]); a lambda has no
    [done] attribute. *)
Definition print_process (print_pair : Param -> Value -> option Exc) : Processor :=
  mkProcessor print_pair (fun _ => None).

(** Lines 209-214: the deprecated [gateway_class] stands in for
    [proxy_class]. *)
Definition poll_class (a : PollArgs) : list Warning * Result (option ProxyClass) :=
  match poll_gateway_class a with
  | Some g =>
      ([PendingDeprecationWarning
          "cpppo.server.enip.poll poll( gateway_class=... ) is deprecated; use proxy_class=... instead"],
       match poll_proxy_class a with
       | None => Ok (Some g)
       | Some _ =>
           Raise (mkExc AssertionError
                    "Cannot specify both gateway_class and proxy_class")
       end)
  | None => ([], Ok (poll_proxy_class a))
  end.

(** Lines 215-224: the gateway and the [process] that [run] is given.
    [enip_address] is the default address of [cpppo.server.enip.main], which
    is not in this module. *)
Definition poll_via_process (enip_address : string * Z)
    (print_pair : Param -> Value -> option Exc) (a : PollArgs)
    (proxy_class : option ProxyClass) : Result (Gateway * Processor) :=
  match proxy_class, poll_via a with
  | Some _, Some _ =>
      Raise (mkExc AssertionError
               "Cannot specify both a proxy_class and a 'via' proxy instance")
  | _, _ =>
      let address := match poll_address a with
                     | Some address => address
                     | None => enip_address
                     end in
      let process := match poll_process a with
                     | Some process => process
                     | None => print_process print_pair
                     end in
      match poll_via a with
      | Some via => Ok (via, process)
      | None =>
          match proxy_class with
          | None => Raise (mkExc TypeError "'NoneType' object is not callable")
          | Some make =>
              match make (mkConnection (fst address) (snd address)
                            (poll_depth a) (poll_multiple a) (poll_timeout a)
                            (poll_send_path a) (poll_route_path a)) with
              | inl e => Raise e
              | inr via => Ok (via, process)
              end
          end
      end
  end.

(** Lines 209-224 together: the warnings given, and the gateway and
    [process], unless an exception is raised first. *)
Definition poll_setup (enip_address : string * Z)
    (print_pair : Param -> Value -> option Exc) (a : PollArgs)
    : list Warning * Result (Gateway * Processor) :=
  let (warned, r) := poll_class a in
  (warned,
   match r with
   | Raise e => Raise e
   | Ok proxy_class => poll_via_process enip_address print_pair a proxy_class
   end).

(** [poll( ... )], for at most [fuel] passes of the loop of [run]. *)
Definition poll (fuel : nat) (clock : nat -> Q) (enip_address : string * Z)
    (print_pair : Param -> Value -> option Exc) (a : PollArgs)
    : list Warning * M Outcome :=
  let (warned, r) := poll_setup enip_address print_pair a in
  (warned,
   match r with
   | Raise e => raise e
   | Ok (via, process) =>
       run fuel clock via process (poll_failure a) (poll_run_args a) (poll_kwds a)
   end).

(** ** main (lines 230-311) *)

Module logging.
Inductive level : Type := WARNING | NORMAL | DETAIL | INFO | DEBUG.
End logging.

(** [s.split( sep )] for a separator of one character. *)
Fixpoint split (sep : ascii) (s : string) : list string :=
  match s with
  | EmptyString => [EmptyString]
  | String c s' =>
      if Ascii.eqb c sep then EmptyString :: split sep s'
      else match split sep s' with
           | [] => [String c EmptyString]
           | part :: parts => String c part :: parts
           end
  end.

(** [s.split( sep, 1 )]: split at the first separator only. *)
Fixpoint split1 (sep : ascii) (s : string) : list string :=
  match s with
  | EmptyString => [EmptyString]
  | String c s' =>
      if Ascii.eqb c sep then [EmptyString; s']
      else match split1 sep s' with
           | [] => [String c EmptyString]
           | part :: parts => String c part :: parts
           end
  end.

(** Truthiness of a string: the empty string is falsy. *)
Definition nonempty (s : string) : bool :=
  match s with
  | EmptyString => false
  | _ => true
  end.

(** The parsed command line ([ap.parse_args()]), with the defaults of the
    parser filled in. *)
Record Args : Type := mkArgs {
  args_verbose : nat;
  args_address : string;
  args_cycle : option string;
  args_timeout : option string;
  args_route_path : option string;
  args_send_path : option string;
  args_simple : bool;
  args_multiple : bool;
  args_depth : option string;
  args_gateway : string;
  args_pass_thru : bool;
  args_parameter : list string
}.

(** What [main] uses and this module does not define: the default address,
    the conversions [int], [float] and [json.loads], the lookup of a class in
    a module of [cpppo.server.enip], and the console. *)
Record Externals : Type := mkExternals {
  enip_address : string * Z;
  py_int : string -> Exc + Z;
  py_float : string -> Exc + Q;
  json_loads : string -> Exc + Json;
  import_class : string -> string -> Exc + ProxyClass;
  print_pair : Param -> Value -> option Exc
}.

(** Lines 269-278: the logging level for a count of [-v]. *)
Definition main_level (verbose : nat) : logging.level :=
  match verbose with
  | 0%nat => logging.WARNING
  | 1%nat => logging.NORMAL
  | 2%nat => logging.DETAIL
  | 3%nat => logging.INFO
  | 4%nat => logging.DEBUG
  | _ => logging.DEBUG
  end.

Definition of_sum {A} (r : Exc + A) : Result A :=
  match r with
  | inl e => Raise e
  | inr a => Ok a
  end.

Definition and_then {A B} (r : Result A) (k : A -> Result B) : Result B :=
  match r with
  | Ok a => k a
  | Raise e => Raise e
  end.

(** Lines 283-285: [mod,cls = args.gateway.split( '.' )] and the lookup. *)
Definition main_proxy_class (x : Externals) (gateway : string) : Result ProxyClass :=
  match split "." gateway with
  | [mod_; cls] => of_sum (import_class x mod_ cls)
  | [] | [_] =>
      Raise (mkExc ValueError "not enough values to unpack (expected 2, got 1)")
  | _ => Raise (mkExc ValueError "too many values to unpack (expected 2)")
  end.

(** Lines 288-291: the interface and port to connect to. *)
Definition main_address (x : Externals) (args_address : string)
    : Result (string * Z) :=
  let address := split1 ":" args_address in
  if negb ((1 <=? length address)%nat && (length address <=? 2)%nat)
  then Raise (mkExc AssertionError
                ("Invalid --address [<interface>]:[<port>}: " ++ args_address))
  else
    let interface := if nonempty (nth 0 address EmptyString)
                     then nth 0 address EmptyString
                     else fst (enip_address x) in
    and_then
      (if (1 <? length address)%nat && nonempty (nth 1 address EmptyString)
       then of_sum (py_int x (nth 1 address EmptyString))
       else Ok (snd (enip_address x)))
      (fun port => Ok (interface, port)).

(** An optional argument converted if it was given. *)
Definition convert_if_given {A} (convert : string -> Exc + A)
    (arg : option string) : Result (option A) :=
  match arg with
  | Some s => and_then (of_sum (convert s)) (fun a => Ok (Some a))
  | None => Ok None
  end.

(** Lines 297-298. *)
Definition main_route_path (x : Externals) (route_path : option string)
    (simple : bool) : Result (option Json) :=
  match route_path with
  | Some s =>
      if nonempty s then and_then (of_sum (json_loads x s)) (fun j => Ok (Some j))
      else if simple then Ok (Some (JList [])) else Ok None
  | None => if simple then Ok (Some (JList [])) else Ok None
  end.

(** Lines 299-300. *)
Definition main_send_path (send_path : option string) (simple : bool)
    : option string :=
  match send_path with
  | Some s =>
      if nonempty s then Some s
      else if simple then Some EmptyString else None
  | None => if simple then Some EmptyString else None
  end.

(** Lines 269-300: what [main] works out before it polls, in the order in
    which the source does. *)
Record Settled : Type := mkSettled {
  settled_level : logging.level;
  settled_proxy_class : ProxyClass;
  settled_address : string * Z;
  settled_multiple : Z;
  settled_depth : option Z;
  settled_timeout : option Q;
  settled_cycle : option Q;
  settled_route_path : option Json;
  settled_send_path : option string
}.

Definition main_settle (x : Externals) (args : Args) : Result Settled :=
  let level := main_level (args_verbose args) in
  and_then (main_proxy_class x (args_gateway args)) (fun proxy_class =>
  and_then (main_address x (args_address args)) (fun address =>
  let multiple := if args_multiple args then 500%Z else 0%Z in
  and_then (convert_if_given (py_int x) (args_depth args)) (fun depth =>
  and_then (convert_if_given (py_float x) (args_timeout args)) (fun timeout =>
  and_then (convert_if_given (py_float x) (args_cycle args)) (fun cycle =>
  and_then (main_route_path x (args_route_path args) (args_simple args))
    (fun route_path =>
  let send_path := main_send_path (args_send_path args) (args_simple args) in
  Ok (mkSettled level proxy_class address multiple depth timeout cycle
                route_path send_path))))))).

(** The call of [poll] on lines 303-305. *)
Definition main_poll_args (args : Args) (c : Settled) : PollArgs :=
  mkPollArgs (Some (settled_proxy_class c)) (Some (settled_address c))
             (settled_depth c) (Some (settled_multiple c)) (settled_timeout c)
             (settled_route_path c) (settled_send_path c)
             None None None None
             (mkRunArgs None None None None)
             (mkKwds (settled_cycle c) (Some (map PName (args_parameter args)))
                     (Some (args_pass_thru args))).

(** [isinstance( exc, (KeyboardInterrupt, SystemExit) )]. *)
Definition is_interrupt (e : Exc) : bool :=
  match exc_class e with
  | KeyboardInterrupt | SystemExit => true
  | _ => false
  end.

(** How [main] stands: it has returned a value (with the exception it
    logged, and at which level, if it caught one), or [run] is still
    looping. *)
Inductive MainOutcome : Type :=
| MainReturned (value : option Z) (logged : option (logging.level * Exc))
| MainRunning (st : RunState).

(** Lines 302-311: the [try] statement around [poll]. *)
Definition main_try (polling : M Outcome) : M MainOutcome :=
  fun w =>
    match polling w with
    | (Ok Returned, w') => (Ok (MainReturned None None), w')
    | (Ok (Running st), w') => (Ok (MainRunning st), w')
    | (Raise e, w') =>
        if is_interrupt e
        then (Ok (MainReturned (Some 0%Z) (Some (logging.INFO, e))), w')
        else if is_Exception e
        then (Ok (MainReturned (Some 1%Z) (Some (logging.WARNING, e))), w')
        else (Raise e, w')
    end.

(** [main()] on a parsed command line, for at most [fuel] passes of the
    loop of [run]. *)
Definition main (fuel : nat) (clock : nat -> Q) (x : Externals) (args : Args)
    : list Warning * M MainOutcome :=
  match main_settle x args with
  | Raise e => ([], raise e)
  | Ok c =>
      let (warned, polling) :=
        poll fuel clock (enip_address x) (print_pair x) (main_poll_args args c) in
      (warned, main_try polling)
  end.

(** ** Quantities the further statements speak of *)

(** Whatever the computation [m] does and however it ends, the events it
    adds to the trace all satisfy [P]. *)
Definition emits {A} (P : Event -> Prop) (m : M A) : Prop :=
  forall w, exists events,
    trace (snd (m w)) = trace w ++ events /\ Forall P events.

(** The events of [loop]: its own log records, the read, and the closing of
    the gateway. *)
Definition is_loop_event (e : Event) : Prop :=
  match e with
  | Log INFO _ | Log NORMAL (Missed _ _ _) | Read _ | CloseGateway => True
  | _ => False
  end.

Definition is_process_event (e : Event) : Prop :=
  match e with
  | Process _ _ => True
  | _ => False
  end.

(** The events of the [except] clause of [run]. *)
Definition is_failure_event (e : Event) : Prop :=
  match e with
  | Log NORMAL (PollingFailure _ _) | Log DETAIL (PollingBackoff _ _)
  | Failure _ => True
  | _ => False
  end.

Definition is_poll_event (e : Event) : Prop :=
  is_loop_event e \/ is_process_event e \/ is_failure_event e.

(** A sleep, if the event is one, is not negative and not longer than [l]. *)
Definition sleep_within (l : Q) (e : Event) : Prop :=
  match e with
  | Sleep d => 0 <= d /\ d <= l
  | _ => True
  end.

(** The back-off, if active, is at most [bound]. *)
Definition backoff_within (bound : Q) (st : RunState) : Prop :=
  match backoff st with
  | Some b => b <= bound
  | None => True
  end.

(** The keyword arguments of line 222-224. *)
Definition poll_connection (enip_address : string * Z) (a : PollArgs) : Connection :=
  let address := match poll_address a with
                 | Some address => address
                 | None => enip_address
                 end in
  mkConnection (fst address) (snd address) (poll_depth a) (poll_multiple a)
               (poll_timeout a) (poll_send_path a) (poll_route_path a).

(** The [process] after lines 219-220. *)
Definition poll_process_or_print (print_pair : Param -> Value -> option Exc)
    (a : PollArgs) : Processor :=
  match poll_process a with
  | Some process => process
  | None => print_process print_pair
  end.

(** [c in s] for a character. *)
Fixpoint has_char (c : ascii) (s : string) : bool :=
  match s with
  | EmptyString => false
  | String c' s' => Ascii.eqb c' c || has_char c s'
  end.

(** [convert( s ) if s else default]. *)
Definition or_default {A} (s : string) (default : A) (convert : string -> A) : A :=
  if nonempty s then convert s else default.

(** ** More gateways, and a command line, for the examples *)

(** Every read is interrupted from the keyboard. *)
Definition gateway_interrupted : Gateway :=
  mkGateway (fun _ ps _ => inr (resolve ps))
            (fun _ _ => ([], Some (mkExc KeyboardInterrupt ""))).

(** An [int] that knows plain decimal numerals only. *)
Definition int_of_numeral (s : string) : Exc + Z :=
  match NilZero.int_of_string s with
  | Some i => inr (Z.of_int i)
  | None => inl (mkExc ValueError "invalid literal for int() with base 10")
  end.

(** A proxy class that connects, and one that cannot. *)
Definition proxy_connecting : ProxyClass := fun _ => inr gateway_steady.
Definition proxy_refused : ProxyClass :=
  fun _ => inl (mkExc IOError "connection refused").

(** The outside of [main] with one module, [ab], of two classes. *)
Definition externals_ab : Externals :=
  mkExternals
    ("localhost"%string, 44818%Z)
    int_of_numeral
    (fun s => if String.eqb s "2.5" then inr (5 # 2)
              else inl (mkExc ValueError "could not convert string to float"))
    (fun s => if String.eqb s "[]" then inr (JList [])
              else inl (mkExc ValueError "No JSON object could be decoded"))
    (fun mod_ cls =>
       if String.eqb mod_ "ab" && String.eqb cls "powerflex_750_series"
       then inr proxy_connecting
       else if String.eqb mod_ "ab" && String.eqb cls "unplugged"
       then inr proxy_refused
       else inl (mkExc RuntimeError "No module or class of that name"))
    (fun _ _ => None).

Definition args_unplugged : Args :=
  mkArgs 0 "10.0.0.7:44818" None None None None false false None
         "ab.unplugged" false [].

Definition poll_args_of (proxy_class gateway_class : option ProxyClass)
    (via : option Gateway) (process : option Processor) : PollArgs :=
  mkPollArgs proxy_class None None None None None None gateway_class via
             process None no_args (mkKwds (Some 1) None None).

(** * Lemmas *)

(** ** Numbers *)

Lemma Qltb_lt x y : Qltb x y = true <-> x < y.
Proof.
  unfold Qltb. rewrite negb_true_iff, <- not_true_iff_false, Qle_bool_iff.
  split; [apply Qnot_le_lt | apply Qlt_not_le].
Qed.

Lemma Qltb_ge x y : Qltb x y = false <-> y <= x.
Proof.
  unfold Qltb. rewrite negb_false_iff. apply Qle_bool_iff.
Qed.


Lemma truthy_false x : truthy x = false <-> x == 0.
Proof.
  unfold truthy. rewrite negb_false_iff. apply Qeq_bool_iff.
Qed.

Lemma py_max_Qmax a b : py_max a b == Qmax a b.
Proof.
  unfold py_max. destruct (Qltb a b) eqn:E.
  - apply Qltb_lt in E. symmetry. apply Q.max_r. lra.
  - apply Qltb_ge in E. symmetry. apply Q.max_l. lra.
Qed.

Lemma py_min_Qmin a b : py_min a b == Qmin a b.
Proof.
  unfold py_min. destruct (Qltb b a) eqn:E.
  - apply Qltb_lt in E. symmetry. apply Q.min_r. lra.
  - apply Qltb_ge in E. symmetry. apply Q.min_l. lra.
Qed.

(** Rounding keeps the sign: what is not negative is not rounded to a
    negative number. *)
Lemma round_half_even_nonneg n d :
  (0 <= n)%Z -> (0 < d)%Z -> (0 <= round_half_even n d)%Z.
Proof.
  intros Hn Hd. unfold round_half_even.
  pose proof (Z.div_pos n d Hn Hd) as Hq.
  destruct (2 * (n mod d) ?= d)%Z; [destruct (Z.even (n / d))|..]; lia.
Qed.

Lemma round64_pos_nonneg a d : (0 <= a)%Z -> (0 < d)%Z -> 0 <= round64_pos a d.
Proof.
  intros Ha Hd. unfold round64_pos.
  set (e := Z.max (binade a d - 52) (-1074)).
  destruct (0 <=? e)%Z eqn:E.
  - apply Z.leb_le in E.
    assert (H2 : (0 < 2 ^ e)%Z) by (apply Z.pow_pos_nonneg; lia).
    change 0 with (inject_Z 0). rewrite <- Zle_Qle.
    apply Z.mul_nonneg_nonneg; [apply round_half_even_nonneg|]; nia.
  - apply Z.leb_gt in E.
    assert (H2 : (0 < 2 ^ (- e))%Z) by (apply Z.pow_pos_nonneg; lia).
    unfold Qle. cbn [Qnum Qden]. rewrite Z.mul_1_r, Z.mul_0_l.
    apply round_half_even_nonneg; nia.
Qed.

Lemma round64_nonneg q : 0 <= q -> 0 <= round64 q.
Proof.
  intros Hq. unfold round64. rewrite Qred_correct.
  destruct q as [n d]. unfold Qle in Hq. cbn [Qnum Qden] in *.
  destruct n as [|n|n]; [apply Qle_refl| |lia].
  apply round64_pos_nonneg; lia.
Qed.

(** A difference of floats taken the right way round is not negative. *)
Lemma fsub_nonneg a b : a <= b -> 0 <= fsub b a.
Proof. intros H. apply round64_nonneg. lra. Qed.




(** ** execute *)

(** zip pairs up to the shorter of the two; the reader's exception comes out
    only if the reader is asked once more than it has values. *)
Lemma zip_reader_eq ps values ending :
  zip_reader ps values ending =
  (combine ps values,
   if (length values <? length ps)%nat then ending else None).
Proof.
  revert values. induction ps as [|p ps IH]; intros values.
  - destruct values; reflexivity.
  - destruct values as [|v values]; [reflexivity|].
    cbn [zip_reader]. rewrite IH. reflexivity.
Qed.

Lemma zip_reader_ending ps values ending e :
  snd (zip_reader ps values ending) = Some e -> ending = Some e.
Proof.
  rewrite zip_reader_eq. cbn [snd].
  destruct (length values <? length ps)%nat; [trivial|discriminate].
Qed.



Lemma execute_raises_Exception via process n params pt e :
  raises_only_Exceptions via process ->
  snd (execute via n params pt) = Some e -> is_Exception e = true.
Proof.
  intros (Hs & Hr & _). unfold execute.
  destruct (parameter_substitution via n (params_or_PARAMS params) pt)
    as [e'|addresses] eqn:S.
  - cbn [snd]. intros H; injection H as <-. eapply Hs, S.
  - destruct (read via n addresses) as [values ending] eqn:R.
    intros H. apply zip_reader_ending in H. subst ending.
    apply (Hr n addresses). now rewrite R.
Qed.

(** ** loop *)

Lemma loop_cadence_eq clock c last w :
  loop_cadence clock c (Some last) w =
  (Ok (clock (ticks w), advanced c last (clock (ticks w))),
   mkWorld (S (ticks w)) (polls w) (checks w)
           (trace w ++ cadence_notes c last (clock (ticks w)))).
Proof.
  unfold loop_cadence, advanced, cadence_notes. run_monad.
  destruct (Qltb (fsub (clock (ticks w)) last) c); [reflexivity|].
  destruct (truthy last); simpl; [|now rewrite app_nil_r].
  destruct (Qltb 1 _); simpl; [reflexivity|now rewrite app_nil_r].
Qed.

Lemma loop_poll_eq via params pt w :
  loop_poll via params pt w =
  match execute via (polls w) params pt with
  | (res, None) =>
      (Ok res, mkWorld (ticks w) (S (polls w)) (checks w)
                       (trace w ++ read_events via (polls w) params pt))
  | (_, Some e) =>
      (Raise e, mkWorld (ticks w) (S (polls w)) (checks w)
                        (trace w ++ read_events via (polls w) params pt
                                 ++ [CloseGateway]))
  end.
Proof.
  unfold loop_poll, with_via, read_events. run_monad.
  destruct (execute_read via (polls w) params pt); simpl;
    destruct (execute via (polls w) params pt) as [res [e|]]; simpl;
    rewrite <- ?app_assoc, ?app_nil_r; reflexivity.
Qed.

(** What a call of [loop] with a number for [last_poll] does, in one
    equation: it returns exactly when the poll does. *)
Lemma loop_eq clock via cycle last params pt w :
  loop clock via cycle (Some last) params pt w =
  let c := effective_cycle cycle in
  let init_poll := clock (ticks w) in
  let done_poll := clock (S (ticks w)) in
  let last' := advanced c last init_poll in
  let before := cadence_notes c last init_poll
                ++ [Log INFO (PollingStarted (fsub init_poll last') c)]
                ++ read_events via (polls w) params pt in
  match execute via (polls w) params pt with
  | (res, None) =>
      (Ok (last', py_max 0 (fsub (fadd last' c) done_poll), res),
       mkWorld (S (S (ticks w))) (S (polls w)) (checks w)
               (trace w ++ before ++ [finished_note c last' init_poll done_poll]))
  | (_, Some e) =>
      (Raise e, mkWorld (S (ticks w)) (S (polls w)) (checks w)
                        (trace w ++ before ++ [CloseGateway]))
  end.
Proof.
  unfold loop. unfold bind at 1. rewrite loop_cadence_eq.
  unfold bind at 1. unfold emit at 1. cbn [fst snd ticks polls checks trace].
  unfold bind at 1. rewrite loop_poll_eq. cbn [ticks polls checks trace].
  destruct (execute via (polls w) params pt) as [res [e|]].
  - cbv zeta. rewrite <- !app_assoc. reflexivity.
  - run_monad. cbv zeta. unfold finished_note. rewrite <- !app_assoc. reflexivity.
Qed.

Lemma loop_returns_advanced clock via cycle last params pt w last' delay res w' :
  loop clock via cycle (Some last) params pt w = (Ok (last', delay, res), w') ->
  last' = advanced (effective_cycle cycle) last (clock (ticks w)).
Proof.
  rewrite loop_eq. cbv zeta.
  destruct (execute via (polls w) params pt) as [rs [e|]]; [discriminate|].
  intros H; injection H as <- _ _ _. reflexivity.
Qed.




(** A first call ([last_poll] zero, as [run] passes it) that comes a whole
    cycle or more after the clock's origin takes the reading as the start. *)
Lemma loop_first_call_on_time clock via cycle last params pt w res :
  last == 0 ->
  effective_cycle cycle <= fsub (clock (ticks w)) last ->
  execute via (polls w) params pt = (res, None) ->
  exists delay w',
    loop clock via cycle (Some last) params pt w
      = (Ok (clock (ticks w), delay, res), w').
Proof.
  intros H0 Hc Hex. rewrite loop_eq, Hex. cbv zeta.
  unfold advanced. apply truthy_false in H0 as Hf. rewrite Hf.
  apply Qltb_ge in Hc. rewrite Hc. do 2 eexists. reflexivity.
Qed.

(** ** run *)

Lemma process_all_raises process done p v rest exc w :
  (forall q u, In (q, u) done -> process_call process q u = None) ->
  process_call process p v = Some exc ->
  process_all process (done ++ (p, v) :: rest) w =
  (Raise exc, mkWorld (ticks w) (polls w) (checks w)
                      (trace w ++ process_events done ++ [Process p v])).
Proof.
  revert w. induction done as [|[q u] done IH]; intros w Hdone Hp.
  - cbn [app process_all process_events map]. unfold bind, emit, raise.
    rewrite Hp. reflexivity.
  - cbn [app process_all]. unfold bind at 1. unfold emit at 1.
    rewrite (Hdone q u) by now left.
    rewrite IH; [|intros; apply Hdone; now right|assumption].
    cbn [ticks polls checks trace process_events map fst snd app].
    rewrite <- app_assoc. reflexivity.
Qed.

Lemma process_all_returns process res w :
  (forall q u, In (q, u) res -> process_call process q u = None) ->
  process_all process res w =
  (Ok tt, mkWorld (ticks w) (polls w) (checks w) (trace w ++ process_events res)).
Proof.
  revert w. induction res as [|[q u] res IH]; intros w Hres.
  - cbn. rewrite app_nil_r. now destruct w.
  - cbn [process_all]. unfold bind at 1. unfold emit at 1.
    rewrite (Hres q u) by now left.
    rewrite IH by (intros; apply Hres; now right).
    cbn [ticks polls checks trace process_events map fst snd app].
    rewrite <- app_assoc. reflexivity.
Qed.

Lemma process_all_raises_Exception via process res w e w' :
  raises_only_Exceptions via process ->
  process_all process res w = (Raise e, w') -> is_Exception e = true.
Proof.
  intros (_ & _ & Hp). revert w. induction res as [|[p v] res IH]; intros w.
  - discriminate.
  - cbn [process_all]. unfold bind at 1. unfold emit at 1.
    destruct (process_call process p v) as [e'|] eqn:C.
    + unfold raise. intros H; injection H as <- <-. eapply Hp, C.
    + apply IH.
Qed.

Lemma next_backoff_expected s k :
  next_backoff s (expected_backoff s k) = backoff_nth s k.
Proof. destruct k; reflexivity. Qed.


Lemma sleep_returns l d w :
  0 <= l -> 0 <= d ->
  sleep (py_min l d) w =
  (Ok tt, mkWorld (ticks w) (polls w) (checks w) (trace w ++ [Sleep (py_min l d)])).
Proof.
  intros Hl Hd. unfold sleep.
  assert (E : Qltb (py_min l d) 0 = false).
  { apply Qltb_ge. rewrite py_min_Qmin. apply Q.min_glb; lra. }
  rewrite E. reflexivity.
Qed.

Lemma last_cons_default {A} (l : list A) (a d : A) :
  last (a :: l) d = last l a.
Proof.
  revert a d. induction l as [|b l IH]; intros a d; [reflexivity|].
  change (last (a :: b :: l) d) with (last (b :: l) d).
  now rewrite (IH b d), (IH b a).
Qed.

Section Supervisor.

Variable clock : nat -> Q.
Variable via : Gateway.
Variable process : Processor.
Variable failure : option FailureCallback.
Variable s : Settings.
Variable kwds : Kwds.

Lemma run_try_backoff st w r st' w' :
  run_try clock via process kwds st w = ((r, st'), w') ->
  backoff st' = match r with Ok _ => None | Raise _ => backoff st end /\
  beg st' = beg st.
Proof.
  unfold run_try.
  destruct (loop _ _ _ _ _ _ w) as [[[[l d] res]|e] w1].
  - destruct (process_all process res w1) as [[u|e] w2];
      intros H; injection H as <- <- <-; split; reflexivity.
  - intros H; injection H as <- <- <-; split; reflexivity.
Qed.

Lemma run_try_raises_Exception st w e st1 w1 :
  raises_only_Exceptions via process ->
  run_try clock via process kwds st w = ((Raise e, st1), w1) ->
  is_Exception e = true.
Proof.
  intros Hx. unfold run_try. rewrite loop_eq. cbv zeta.
  destruct (execute via (polls w) (kw_params kwds) (kw_pass_thru kwds))
    as [res [e'|]] eqn:E.
  - intros H; injection H as <- <- <-.
    apply (execute_raises_Exception via process (polls w)
             (kw_params kwds) (kw_pass_thru kwds)); [assumption|].
    now rewrite E.
  - destruct (process_all process res _) as [[u|e'] w2] eqn:P; [discriminate|].
    intros H; injection H as <- <- <-.
    eapply process_all_raises_Exception; eassumption.
Qed.

Lemma run_except_eq exc st w :
  run_except s failure exc st w =
  (match failure_raises failure exc with
   | None => Ok (set_dly (next_backoff s (backoff st))
                         (set_backoff (Some (next_backoff s (backoff st))) st))
   | Some e => Raise e
   end,
   mkWorld (ticks w) (polls w) (checks w)
           (trace w ++ failure_events s failure (backoff st) exc)).
Proof.
  unfold run_except, failure_events, failure_note, failure_raises.
  destruct (backoff st) as [b|]; run_monad;
    (destruct failure as [f|]; [destruct (f exc)|]); run_monad;
    rewrite <- ?app_assoc; reflexivity.
Qed.

(** An [Exception] out of the [try] body: the [except] clause runs, and the
    statement completes unless the [failure] callback raises. *)
Lemma run_poll_raised st w e st1 w1 :
  run_try clock via process kwds st w = ((Raise e, st1), w1) ->
  is_Exception e = true ->
  run_poll clock via process failure s kwds st w =
  (match failure_raises failure e with
   | None => Ok (Failed e, set_dly (next_backoff s (backoff st))
                             (set_backoff (Some (next_backoff s (backoff st))) st1))
   | Some e' => Raise e'
   end,
   mkWorld (ticks w1) (polls w1) (checks w1)
           (trace w1 ++ failure_events s failure (backoff st) e)).
Proof.
  intros T Hex. unfold run_poll. rewrite T, Hex.
  apply run_try_backoff in T as [Tb _].
  unfold bind. rewrite run_except_eq, Tb.
  destruct (failure_raises failure e); reflexivity.
Qed.

Lemma run_poll_failed st w e st1 w1 :
  run_try clock via process kwds st w = ((Raise e, st1), w1) ->
  is_Exception e = true ->
  failure_raises failure e = None ->
  run_poll clock via process failure s kwds st w =
  (Ok (Failed e, set_dly (next_backoff s (backoff st))
                   (set_backoff (Some (next_backoff s (backoff st))) st1)),
   mkWorld (ticks w1) (polls w1) (checks w1)
           (trace w1 ++ failure_events s failure (backoff st) e)).
Proof.
  intros T Hex Hf. rewrite (run_poll_raised _ _ _ _ _ T Hex), Hf. reflexivity.
Qed.

(** What is not an [Exception] (KeyboardInterrupt, SystemExit) is not caught:
    it leaves [run]. *)
Lemma run_poll_passes_on st w e st1 w1 :
  run_try clock via process kwds st w = ((Raise e, st1), w1) ->
  is_Exception e = false ->
  run_poll clock via process failure s kwds st w = (Raise e, w1).
Proof.
  intros T Hex. unfold run_poll. rewrite T, Hex. reflexivity.
Qed.

Lemma run_poll_backoff st w it st' w' :
  run_poll clock via process failure s kwds st w = (Ok (it, st'), w') ->
  beg st' = beg st /\
  match it with
  | Polled => backoff st' = None
  | Failed _ =>
      backoff st' = Some (next_backoff s (backoff st)) /\
      dly st' = next_backoff s (backoff st)
  | _ => False
  end.
Proof.
  unfold run_poll.
  destruct (run_try clock via process kwds st w) as [[r st1] w1] eqn:T.
  apply run_try_backoff in T as [Tb Tg].
  destruct r as [u|e].
  - intros H; injection H as <- <- <-. split; assumption.
  - destruct (is_Exception e); [|discriminate].
    unfold bind. rewrite run_except_eq. rewrite Tb.
    destruct (failure_raises failure e); try discriminate.
    unfold ret; intros H; injection H as <- <- <-; repeat split; assumption.
Qed.

Lemma run_poll_continues st w :
  raises_only_Exceptions via process ->
  never_raises failure ->
  exists it st' w',
    run_poll clock via process failure s kwds st w = (Ok (it, st'), w') /\
    it <> Finished.
Proof.
  intros Hx Hf.
  destruct (run_try clock via process kwds st w) as [[[u|e] st1] w1] eqn:T.
  - unfold run_poll. rewrite T. do 3 eexists. split; [reflexivity|discriminate].
  - rewrite (run_poll_failed _ _ _ _ _ T (run_try_raises_Exception _ _ _ _ _ Hx T) (Hf e)).
    do 3 eexists. split; [reflexivity|discriminate].
Qed.

(** What one pass does to the back-off and the pending delay. *)
Lemma run_iteration_backoff st w it st' w' :
  run_iteration clock via process failure s kwds st w = (Ok (it, st'), w') ->
  match it with
  | Finished | Waited => st' = st
  | Polled => backoff st' = None
  | Failed _ =>
      backoff st' = Some (next_backoff s (backoff st)) /\
      dly st' = next_backoff s (backoff st)
  end.
Proof.
  unfold run_iteration, run_condition.
  unfold bind at 1. unfold bind at 1. unfold next_check, ret at 1.
  destruct (match process_done process (checks w) with
            | Some true => false | _ => true end);
    cbn [negb]; [|unfold ret; intros H; injection H as <- <- <-; reflexivity].
  unfold bind at 1. unfold timer at 1. cbn [ticks polls checks trace].
  destruct (Qltb _ (dly st)).
  - unfold sleep. destruct (Qltb _ 0); unfold bind, raise, emit, ret;
      [discriminate|]. intros H; injection H as <- <- <-; reflexivity.
  - unfold bind at 1.
    destruct (run_poll _ _ _ _ _ _ _ _) as [[[it0 st0]|e] w0] eqn:P; [|discriminate].
    apply run_poll_backoff in P as [_ P].
    unfold bind, timer, ret. cbn [fst snd].
    intros H; injection H as <- <- <-.
    destruct it0; try contradiction; assumption.
Qed.

(** A pass ends the loop only on a [done] attribute that is true. *)
Lemma run_iteration_finished st w st' w' :
  run_iteration clock via process failure s kwds st w = (Ok (Finished, st'), w') ->
  process_done process (checks w) = Some true.
Proof.
  unfold run_iteration, run_condition.
  unfold bind at 1. unfold bind at 1. unfold next_check, ret at 1.
  destruct (process_done process (checks w)) as [[|]|]; [reflexivity|..]; cbn [negb].
  all: unfold bind at 1; unfold timer at 1; cbn [ticks polls checks trace].
  all: destruct (Qltb _ (dly st)).
  all: try (unfold sleep; destruct (Qltb _ 0); unfold bind, raise, emit, ret;
            discriminate).
  all: unfold bind at 1;
    destruct (run_poll _ _ _ _ _ _ _ _) as [[[it0 st0]|e] w0] eqn:P; [|discriminate];
    apply run_poll_backoff in P as [_ P];
    unfold bind, timer, ret; cbn [fst snd];
    intros H; injection H as -> <- <-; contradiction.
Qed.

Lemma run_iteration_continues st w :
  raises_only_Exceptions via process ->
  never_raises failure ->
  0 <= latency s ->
  process_done process (checks w) <> Some true ->
  exists it st' w',
    run_iteration clock via process failure s kwds st w = (Ok (it, st'), w') /\
    it <> Finished.
Proof.
  intros Hx Hf Hl Hd.
  unfold run_iteration, run_condition.
  unfold bind at 1. unfold bind at 1. unfold next_check, ret at 1.
  assert (C : match process_done process (checks w) with
              | Some true => false | _ => true end = true).
  { destruct (process_done process (checks w)) as [[|]|];
      [now elim Hd|reflexivity..]. }
  rewrite C. cbn [negb].
  unfold bind at 1. unfold timer at 1. cbn [ticks polls checks trace].
  destruct (Qltb _ (dly st)) eqn:E.
  - apply Qltb_lt in E. unfold bind.
    rewrite sleep_returns by (try apply fsub_nonneg; lra). unfold ret.
    do 3 eexists. split; [reflexivity|discriminate].
  - unfold bind at 1.
    destruct (run_poll_continues st
                (mkWorld (S (ticks w)) (polls w) (S (checks w)) (trace w)) Hx Hf)
      as (it & st' & w' & -> & Hit).
    unfold bind, timer, ret. cbn [fst snd].
    do 3 eexists. split; [reflexivity|assumption].
Qed.

Lemma run_loop_returned fuel :
  forall st w w',
    run_loop fuel clock via process failure s kwds st w = (Ok Returned, w') ->
    exists i, process_done process i = Some true.
Proof.
  induction fuel as [|fuel IH]; intros st w w'; [discriminate|].
  cbn [run_loop]. unfold bind.
  destruct (run_iteration clock via process failure s kwds st w)
    as [[[it st1]|e] w1] eqn:R; [|discriminate].
  cbn [fst snd].
  destruct it; try (apply IH).
  intros _. apply run_iteration_finished in R. eauto.
Qed.

Lemma run_loop_forever fuel :
  raises_only_Exceptions via process ->
  never_raises failure ->
  0 <= latency s ->
  (forall i, process_done process i <> Some true) ->
  forall st w, exists st' w',
    run_loop fuel clock via process failure s kwds st w = (Ok (Running st'), w').
Proof.
  intros Hx Hf Hl Hd.
  induction fuel as [|fuel IH]; intros st w.
  - do 2 eexists. reflexivity.
  - cbn [run_loop]. unfold bind.
    destruct (run_iteration_continues st w Hx Hf Hl (Hd _))
      as (it & st1 & w1 & -> & Hit).
    cbn [fst snd]. destruct it; [now elim Hit|apply IH..].
Qed.

(** The invariant behind the back-off sequence: the local [backoff] always
    agrees with the number of failures in a row. *)
Lemma run_history_follows fuel :
  forall st w k,
    backoff st = expected_backoff s k ->
    (forall j, k = S j -> dly st = backoff_nth s j) ->
    backoff_follows s k (run_history fuel clock via process failure s kwds st w).
Proof.
  induction fuel as [|fuel IH]; intros st w k Hb Hd; [exact I|].
  cbn [run_history].
  destruct (run_iteration clock via process failure s kwds st w)
    as [[[it st']|e] w'] eqn:R; [|exact I].
  apply run_iteration_backoff in R.
  destruct it; cbn [backoff_follows failures_after].
  - subst st'. repeat split; assumption.
  - subst st'. split; [assumption|]. split; [assumption|]. now apply IH.
  - split; [assumption|]. split; [discriminate|].
    apply IH; [assumption|discriminate].
  - destruct R as [R1 R2]. rewrite Hb, next_backoff_expected in R1, R2.
    split; [assumption|]. split.
    + intros j Hj. injection Hj as <-. assumption.
    + apply IH; [assumption|]. intros j Hj. injection Hj as <-. assumption.
Qed.

(** [run_history] lists the passes of [run_loop]: while the loop is still
    running there is one entry for each pass made, and the last entry holds
    the local variables the loop has reached. *)
Lemma run_loop_history fuel :
  forall st w st' w',
    run_loop fuel clock via process failure s kwds st w = (Ok (Running st'), w') ->
    length (run_history fuel clock via process failure s kwds st w) = fuel /\
    last (map snd (run_history fuel clock via process failure s kwds st w)) st = st'.
Proof.
  induction fuel as [|fuel IH]; intros st w st' w'.
  - cbn. unfold ret. intros H; injection H as <- _. split; reflexivity.
  - cbn [run_loop run_history]. unfold bind.
    destruct (run_iteration clock via process failure s kwds st w)
      as [[[it st1]|e] w1]; [|discriminate].
    cbn [fst snd].
    destruct it; [discriminate|..]; intros H; apply IH in H as [Hlen Hlast];
      cbn [length map snd]; rewrite last_cons_default, Hlen, Hlast;
      split; reflexivity.
Qed.

End Supervisor.

(** * The claims *)

(** ** Scenarios of the specification, run on the embedding *)

(** [elapsed = 4.35], [cycle = 1.0], a start that is set: four cycles were
    missed, the notice is logged, and the start advances by 4. *)
Example scenario_missed_four :
  let now := round64 (535 # 100) in
  loop (readings [now; 11 # 2]) gateway_steady (Some 1) (Some 1)
       None None world0
  = (Ok (5, 1 # 2,
         [(PName "Output Current", VNum 0); (PName "Motor Velocity", VNum 0)]),
     mkWorld 2 1 0
       [ Log NORMAL (Missed 4 (fsub (fsub now 1) 1) 1);
         Log INFO (PollingStarted (fsub now 5) 1);
         Read (resolve PARAMS);
         Log INFO (PollingFinished (1 # 2) 1 (fsub (11 # 2) now)
                     (Some (fdiv 1 (fsub (11 # 2) now)))) ]).
Proof. vm_compute. reflexivity. Qed.

(** Three failures in a row with 1.0, 1.5 and 10.0: the back-off goes
    1.0, 1.5, 2.25. *)
Example scenario_three_failures :
  let s := mkSettings 1 (3 # 2) 10 (1 # 2) in
  backoff_nth s 0 = 1 /\ backoff_nth s 1 = 3 # 2 /\ backoff_nth s 2 = 9 # 4.
Proof. repeat split. Qed.

(** The arithmetic is that of floats.  With [0.1], [0.2] and [1.2] the
    binary64 numbers nearest to a tenth, a fifth and six fifths:
    [1.2 - 0.2] is [1.0], although the exact difference of the two numbers is
    less than 1; [1.0 // 0.1] is [9.0] and [0.5 // 0.1] is [4.0], since [0.1]
    is more than a tenth; [0.1 + 0.2] is not [0.3]. *)
Example float_arithmetic :
  let f01 := round64 (1 # 10) in
  let f02 := round64 (2 # 10) in
  let f12 := round64 (12 # 10) in
  fsub f12 f02 = 1 /\ f12 - f02 < 1 /\
  floordiv 1 f01 = 9 /\ floordiv (1 # 2) f01 = 4 /\
  floordiv (round64 (435 # 100)) 1 = 4 /\
  1 # 10 < f01 /\
  ~ fadd f01 f02 == round64 (3 # 10) /\
  fmul f01 (3 # 2) = round64 ((3602879701896397 # 36028797018963968) * (3 # 2)).
Proof.
  vm_compute. repeat split; intros H; discriminate H.
Qed.

(** ** C1: early, on-time and missed polls *)



(** ** C6: the delay until the next cycle *)

(** C6.  A call of [loop] whose poll succeeds returns a delay equal to
    [max( 0, last_poll + cycle - done_poll )], where [last_poll] is the
    start it returns, [cycle] the cycle in force and [done_poll] the reading
    of the clock taken after the poll, the sum and the difference being
    those of floats, taken in that order; the delay is never negative. *)
Theorem loop_delay clock via cycle last params pt w res :
  execute via (polls w) params pt = (res, None) ->
  exists last' delay w',
    loop clock via cycle (Some last) params pt w = (Ok (last', delay, res), w') /\
    delay == Qmax 0 (fsub (fadd last' (effective_cycle cycle)) (clock (S (ticks w)))) /\
    (delay = 0 \/
     delay = fsub (fadd last' (effective_cycle cycle)) (clock (S (ticks w)))) /\
    0 <= delay.
Proof.
  intros Hex. rewrite loop_eq, Hex. cbv zeta.
  do 3 eexists. split; [reflexivity|].
  split; [apply py_max_Qmax|]. split.
  - unfold py_max. destruct (Qltb 0 _); [right|left]; reflexivity.
  - rewrite py_max_Qmax. apply Q.le_max_l.
Qed.

(** Two calls: a first one with the default cycle, at 1.5 with the poll done
    at 1.75, which leaves 0.75 seconds; and one with a cycle of 0.1 at 1.0
    after the start 0.5, which advances the start to 0.9, where [0.9 + 0.1]
    is 1.0 and nothing is left. *)
Lemma loop_delay_witness :
  (exists last' delay w',
     loop (readings [3 # 2; 7 # 4]) gateway_steady None (Some 0) None None world0
       = (Ok (last', delay,
              [(PName "Output Current", VNum 0); (PName "Motor Velocity", VNum 0)]),
          w') /\
     last' = 3 # 2 /\ delay = 3 # 4) /\
  (exists last' delay w',
     loop (readings [1; 1]) gateway_steady (Some (round64 (1 # 10))) (Some (1 # 2))
          None None world0
       = (Ok (last', delay,
              [(PName "Output Current", VNum 0); (PName "Motor Velocity", VNum 0)]),
          w') /\
     last' = round64 (9 # 10) /\ delay == 0 /\
     0 < last' + round64 (1 # 10) - 1).
Proof.
  split.
  - destruct (loop_delay (readings [3 # 2; 7 # 4]) gateway_steady None 0 None None
                world0
                [(PName "Output Current", VNum 0); (PName "Motor Velocity", VNum 0)])
      as (last' & delay & w' & Hloop & Hmax & Hcases & Hpos).
    + reflexivity.
    + exists last', delay, w'. split; [exact Hloop|].
      vm_compute in Hloop. injection Hloop as <- <- _. split; reflexivity.
  - destruct (loop_delay (readings [1; 1]) gateway_steady (Some (round64 (1 # 10)))
                (1 # 2) None None world0
                [(PName "Output Current", VNum 0); (PName "Motor Velocity", VNum 0)])
      as (last' & delay & w' & Hloop & Hmax & Hcases & Hpos).
    + reflexivity.
    + exists last', delay, w'. split; [exact Hloop|].
      vm_compute in Hloop. injection Hloop as <- <- _.
      split; [reflexivity|]. split; reflexivity.
Defined.

(** ** C7: the first call *)

(** C7.  The code at two first calls with a cycle of 1.  With [last_poll = 0],
    the unset value that [run] passes, and a clock that reads 0.5, the
    call takes the early branch and returns the start 0, not the reading;
    with [last_poll = None], the default of the signature, the subtraction on
    line 95 raises TypeError and nothing is returned. *)
Theorem loop_first_call_premature :
  fst (loop (readings [1 # 2; 3 # 4]) gateway_steady (Some 1) (Some 0)
            None None world0)
    = Ok (0, 0 + 1 - (3 # 4),
          [(PName "Output Current", VNum 0); (PName "Motor Velocity", VNum 0)]) /\
  ~ 0 == readings [1 # 2; 3 # 4] 0 /\
  fst (loop (readings [1 # 2; 3 # 4]) gateway_steady (Some 1) None
            None None world0)
    = Raise (mkExc TypeError
               "unsupported operand type(s) for -: 'float' and 'NoneType'").
Proof.
  split; [reflexivity|]. split; [discriminate|reflexivity].
Qed.

(** ** C3: the starts returned by successive calls *)

(** C3.  The code at two successive calls with a cycle of 1, from the unset
    start 0, at clock readings 0.5 and 2.25: the calls return the starts 0
    and 2.25.  The start is first initialised by the second call, to 2.25, and
    the 0 returned before is not 2.25 plus a whole non-negative number of
    cycles. *)
Theorem loop_starts_before_initialisation :
  fst (loop_repeatedly 2 (readings [1 # 2; 3 # 4; 9 # 4; 5 # 2]) gateway_steady
         (Some 1) 0 None None world0)
    = Ok [0; 9 # 4] /\
  ~ exists k : Z, (0 <= k)%Z /\ 0 == (9 # 4) + inject_Z k * 1.
Proof.
  split; [reflexivity|].
  intros (k & Hk & H).
  rewrite Zle_Qle in Hk. change (inject_Z 0) with 0 in Hk.
  lra.
Qed.

(** ** C8: the defaults of run *)

(** C8.  The code at [run( via, process, cycle=0 )]: [backoff_min] is taken
    from the cycle as given, 0, and [backoff_max] is ten times that, while
    [loop] polls with a cycle of 1.0; the back-off does not start at 1.0. *)
Theorem run_defaults_cycle_zero :
  run_defaults None None None None (mkKwds (Some 0) None None)
    = mkSettings 0 (3 # 2) (0 * 10) (1 # 2) /\
  effective_cycle (kw_cycle (mkKwds (Some 0) None None)) = 1 /\
  ~ backoff_min (run_defaults None None None None (mkKwds (Some 0) None None)) == 1.
Proof.
  split; [reflexivity|]. split; [reflexivity|discriminate].
Qed.

(** The defaults that do hold: the cycle as given or 1.0, ten times the
    minimum, 1.5 and 0.5. *)
Lemma run_defaults_values kwds :
  let s := run_defaults None None None None kwds in
  backoff_min s = match kw_cycle kwds with Some c => c | None => 1 end /\
  backoff_max s = fmul (backoff_min s) 10 /\
  backoff_multiplier s = 3 # 2 /\
  latency s = 1 # 2.
Proof.
  repeat split.
Qed.

(** ** C9: an empty parameter list *)

(** C9.  [execute] with an empty list of parameters does exactly what it does
    with none given, and raises no error of its own: PARAMS is what is
    substituted; if the substitution raises, that is the error; otherwise the
    addresses it gives are read, and the pairs yielded are the entries of
    PARAMS, in order, each with the value read for it, with the error of the
    read, if any, raised only when the read is asked for more than it
    yields. *)
Theorem execute_empty_params via n pt :
  execute via n (Some []) pt = execute via n None pt /\
  (forall e,
     parameter_substitution via n PARAMS pt = inl e ->
     execute via n (Some []) pt = ([], Some e)) /\
  (forall addresses values ending,
     parameter_substitution via n PARAMS pt = inr addresses ->
     read via n addresses = (values, ending) ->
     execute via n (Some []) pt
       = (combine [PName "Output Current"; PName "Motor Velocity"] values,
          if (length values <? 2)%nat then ending else None) /\
     execute_read via n (Some []) pt = Some addresses /\
     forall v1 v2 more,
       values = v1 :: v2 :: more ->
       execute via n (Some []) pt
         = ([(PName "Output Current", v1); (PName "Motor Velocity", v2)], None)).
Proof.
  split; [reflexivity|]. split.
  - intros e Hs. unfold execute. cbn [params_or_PARAMS]. now rewrite Hs.
  - intros addresses values ending Hs Hr.
    assert (E : execute via n (Some []) pt
      = (combine [PName "Output Current"; PName "Motor Velocity"] values,
         if (length values <? 2)%nat then ending else None)).
    { unfold execute. cbn [params_or_PARAMS]. rewrite Hs, Hr.
      apply zip_reader_eq. }
    split; [exact E|]. split.
    + unfold execute_read. cbn [params_or_PARAMS]. now rewrite Hs.
    + intros v1 v2 more ->. rewrite E. reflexivity.
Qed.

Lemma execute_empty_params_witness :
  execute gateway_steady 3 (Some []) None
    = ([(PName "Output Current", VNum 3); (PName "Motor Velocity", VNum 3)], None) /\
  execute_read gateway_steady 3 (Some []) None
    = Some [("@0x93/1/10", "REAL")%string; ("@0x93/1/10", "REAL")%string].
Proof.
  destruct (execute_empty_params gateway_steady 3 None) as (_ & _ & H).
  destruct (H (resolve PARAMS) [VNum 3; VNum 3] None) as (_ & Hread & Hpairs).
  - reflexivity.
  - reflexivity.
  - split; [|exact Hread]. apply (Hpairs (VNum 3) (VNum 3) []). reflexivity.
Defined.

(** ** C4: all the values or an error *)




(** ** C2: the back-off sequence *)



(** The passes of a run against a gateway that is down: a failure, two
    waits, a failure, and so on, with the delays 1 and 3/2. *)
Example run_passes_gateway_down :
  map (fun p => (fst p, dly (snd p)))
      (run_passes 5 clock_thirds gateway_down process_quiet None no_args
                  (mkKwds (Some 1) None None) world0)
  = [ (Failed (mkExc IOError "connection lost"), 1);
      (Waited, 1); (Waited, 1);
      (Failed (mkExc IOError "connection lost"), 3 # 2);
      (Waited, 3 # 2) ].
Proof. by_evaluation. Qed.

(** ** C10: a process callback that raises *)

(** C10.  When [loop] has returned and [process] raises an [Exception] on one
    of the pairs, after accepting the pairs before it, the [except] clause
    runs as for a failed poll: the back-off [b] is [backoff_min] if it was
    inactive, and otherwise the back-off before times [backoff_multiplier], a
    product of floats, capped at [backoff_max]; the pending delay becomes
    that back-off (not the delay that [loop] returned), the failure is logged
    with it, at NORMAL the first time and at DETAIL after, and [failure], if
    given, is called with the exception of the callback.  The pairs before
    the one refused have been processed, the later ones are not, [lst] holds
    the start that [loop] returned, and the back-off is not cleared.  (An
    exception that [failure] itself raises leaves [run].) *)
Theorem run_process_failure clock via process failure s kwds st w
    last' delay done p v rest exc w1 :
  loop clock via (kw_cycle kwds) (Some (lst st)) (kw_params kwds)
       (kw_pass_thru kwds) w
    = (Ok (last', delay, done ++ (p, v) :: rest), w1) ->
  (forall q u, In (q, u) done -> process_call process q u = None) ->
  process_call process p v = Some exc ->
  is_Exception exc = true ->
  exists b w2,
    match backoff st with
    | None => b = backoff_min s
    | Some b0 =>
        b == Qmin (fmul b0 (backoff_multiplier s)) (backoff_max s) /\
        (b = fmul b0 (backoff_multiplier s) \/ b = backoff_max s)
    end /\
    run_poll clock via process failure s kwds st w
      = (match failure_raises failure exc with
         | None => Ok (Failed exc, mkRunState (Some b) last' b (beg st))
         | Some e' => Raise e'
         end, w2) /\
    trace w2
      = trace w1 ++ map (fun qu => Process (fst qu) (snd qu)) done
                 ++ [Process p v]
                 ++ [match backoff st with
                     | None => Log NORMAL (PollingFailure b exc)
                     | Some _ => Log DETAIL (PollingBackoff b exc)
                     end]
                 ++ match failure with
                    | None => []
                    | Some _ => [Failure exc]
                    end.
Proof.
  intros Hloop Hdone Hp Hex.
  assert (T : run_try clock via process kwds st w =
    ((Raise exc, set_lst_dly last' delay st),
     mkWorld (ticks w1) (polls w1) (checks w1)
             (trace w1 ++ process_events done ++ [Process p v]))).
  { unfold run_try. rewrite Hloop.
    rewrite (process_all_raises process done p v rest exc w1 Hdone Hp).
    reflexivity. }
  exists (next_backoff s (backoff st)). eexists. split; [|split].
  - unfold next_backoff. destruct (backoff st) as [b0|]; [|reflexivity].
    split; [apply py_min_Qmin|].
    unfold py_min. destruct (Qltb _ _); [right|left]; reflexivity.
  - rewrite (run_poll_raised _ _ _ _ _ _ _ _ _ _ _ T Hex). reflexivity.
  - cbn [trace]. rewrite <- !app_assoc.
    unfold failure_events, failure_note, process_events.
    destruct (backoff st), failure; reflexivity.
Qed.

(** A pass with an active back-off of 1.0 (one failure before), in which
    [process] accepts 'Output Current' and refuses 'Motor Velocity': the
    back-off and the delay become 1.5, [failure] is called; and the same pass
    with the back-off inactive, where they become [backoff_min], 1.0. *)
Lemma run_process_failure_witness :
  (exists w2,
     run_poll clock_thirds gateway_steady process_picky (Some (fun _ => None))
              (mkSettings 1 (3 # 2) 10 (1 # 2)) (mkKwds (Some 1) None None)
              (mkRunState (Some 1) 0 1 0) world0
       = (Ok (Failed (mkExc KeyError "Motor Velocity"),
              mkRunState (Some (3 # 2)) 0 (3 # 2) 0), w2) /\
     skipn 4 (trace w2)
       = [ Process (PName "Output Current") (VNum 0);
           Process (PName "Motor Velocity") (VNum 0);
           Log DETAIL (PollingBackoff (3 # 2) (mkExc KeyError "Motor Velocity"));
           Failure (mkExc KeyError "Motor Velocity") ]) /\
  (exists w2,
     run_poll clock_thirds gateway_steady process_picky (Some (fun _ => None))
              (mkSettings 1 (3 # 2) 10 (1 # 2)) (mkKwds (Some 1) None None)
              (mkRunState None 0 0 0) world0
       = (Ok (Failed (mkExc KeyError "Motor Velocity"),
              mkRunState (Some 1) 0 1 0), w2) /\
     skipn 4 (trace w2)
       = [ Process (PName "Output Current") (VNum 0);
           Process (PName "Motor Velocity") (VNum 0);
           Log NORMAL (PollingFailure 1 (mkExc KeyError "Motor Velocity"));
           Failure (mkExc KeyError "Motor Velocity") ]).
Proof.
  split.
  - destruct (run_process_failure clock_thirds gateway_steady process_picky
                (Some (fun _ => None))
                (mkSettings 1 (3 # 2) 10 (1 # 2)) (mkKwds (Some 1) None None)
                (mkRunState (Some 1) 0 1 0) world0
                0 (fsub (fadd 0 1) (clock_thirds 1))
                [(PName "Output Current", VNum 0)]
                (PName "Motor Velocity") (VNum 0) []
                (mkExc KeyError "Motor Velocity")
                (mkWorld 2 1 0
                   [ Log INFO (Premature (fsub (clock_thirds 0) 0) 1);
                     Log INFO (PollingStarted (fsub (clock_thirds 0) 0) 1);
                     Read (resolve PARAMS);
                     finished_note 1 0 (clock_thirds 0) (clock_thirds 1) ]))
      as (b & w2 & Hb & Hpoll & Htrace).
    + by_evaluation.
    + intros q u [H|[]]. injection H as <- <-. reflexivity.
    + reflexivity.
    + reflexivity.
    + exists w2.
      assert (E : b = 3 # 2).
      { clear - Hpoll. vm_compute in Hpoll. congruence. }
      rewrite E in Hpoll, Htrace. split; [exact Hpoll|].
      rewrite Htrace. reflexivity.
  - destruct (run_process_failure clock_thirds gateway_steady process_picky
                (Some (fun _ => None))
                (mkSettings 1 (3 # 2) 10 (1 # 2)) (mkKwds (Some 1) None None)
                (mkRunState None 0 0 0) world0
                0 (fsub (fadd 0 1) (clock_thirds 1))
                [(PName "Output Current", VNum 0)]
                (PName "Motor Velocity") (VNum 0) []
                (mkExc KeyError "Motor Velocity")
                (mkWorld 2 1 0
                   [ Log INFO (Premature (fsub (clock_thirds 0) 0) 1);
                     Log INFO (PollingStarted (fsub (clock_thirds 0) 0) 1);
                     Read (resolve PARAMS);
                     finished_note 1 0 (clock_thirds 0) (clock_thirds 1) ]))
      as (b & w2 & Hb & Hpoll & Htrace).
    + by_evaluation.
    + intros q u [H|[]]. injection H as <- <-. reflexivity.
    + reflexivity.
    + reflexivity.
    + exists w2. cbn [backoff] in Hb. rewrite Hb in Hpoll, Htrace.
      split; [exact Hpoll|]. rewrite Htrace. reflexivity.
Defined.

(** ** C5: the loop outlives poll failures *)

(** C5.  Reading 'exception' as the [Exception] that line 170 names:
    - whenever the body of the [try] (the call of [loop] and the processing
      of its pairs) raises an [Exception], the [except] clause runs: the
      failure is logged, the back-off is set or raised and becomes the
      pending delay, [failure], if given, is called with the exception, and,
      when it returns, the statement completes and the loop goes on to its
      next pass;
    - [run] returns only if the [done] attribute of [process] was found true;
    - if [process] has no [done] attribute, and every exception of the gateway
      and of [process] is an [Exception], [failure] returns and the latency
      is not negative, then [run] is still running after any number of
      passes. *)
Theorem run_survives_poll_failures clock via process failure args kwds :
  let s := run_settings args kwds in
  (forall st w e st1 w1,
     run_try clock via process kwds st w = ((Raise e, st1), w1) ->
     is_Exception e = true ->
     exists st' w',
       run_poll clock via process failure s kwds st w
         = (match failure_raises failure e with
            | None => Ok (Failed e, st')
            | Some e' => Raise e'
            end, w') /\
       backoff st' = Some (next_backoff s (backoff st)) /\
       dly st' = next_backoff s (backoff st) /\
       trace w' = trace w1 ++ failure_events s failure (backoff st) e /\
       In (failure_note s (backoff st) e) (trace w') /\
       (failure <> None -> In (Failure e) (trace w'))) /\
  (forall fuel st w e st' w',
     run_iteration clock via process failure s kwds st w
       = (Ok (Failed e, st'), w') ->
     run_loop (S fuel) clock via process failure s kwds st w
       = run_loop fuel clock via process failure s kwds st' w') /\
  (forall fuel w w',
     run fuel clock via process failure args kwds w = (Ok Returned, w') ->
     exists i, process_done process i = Some true) /\
  (raises_only_Exceptions via process ->
   never_raises failure ->
   0 <= latency s ->
   (forall i, process_done process i = None) ->
   forall fuel w, exists st w',
     run fuel clock via process failure args kwds w = (Ok (Running st), w')).
Proof.
  intros s. split; [|split; [|split]].
  - intros st w e st1 w1 T Hex.
    do 2 eexists. split; [apply (run_poll_raised _ _ _ _ _ _ _ _ _ _ _ T Hex)|].
    cbn [backoff dly set_dly set_backoff trace].
    split; [reflexivity|]. split; [reflexivity|]. split; [reflexivity|].
    split.
    + apply in_or_app. right. unfold failure_events.
      destruct failure; left; reflexivity.
    + intros Hsome. apply in_or_app. right. unfold failure_events.
      destruct failure; [right; left; reflexivity|now elim Hsome].
  - intros fuel st w e st' w' R. cbn [run_loop]. unfold bind. rewrite R.
    reflexivity.
  - intros fuel w w'. unfold run, run_init. unfold bind at 1 2.
    unfold timer, ret at 1.
    apply run_loop_returned.
  - intros Hx Hf Hl Hd fuel w. unfold run, run_init. unfold bind at 1 2.
    unfold timer, ret at 1.
    apply run_loop_forever; try assumption.
    intros i. rewrite Hd. discriminate.
Qed.

Lemma run_survives_poll_failures_witness :
  (exists st' w',
     run_poll clock_thirds gateway_down process_quiet None
              (mkSettings 1 (3 # 2) (1 * 10) (1 # 2)) (mkKwds (Some 1) None None)
              (mkRunState None 0 0 0) world0
       = (Ok (Failed (mkExc IOError "connection lost"), st'), w') /\
     backoff st' = Some 1 /\ dly st' = 1) /\
  (forall fuel, exists st w',
     run fuel clock_thirds gateway_down process_quiet None no_args
         (mkKwds (Some 1) None None) world0 = (Ok (Running st), w')).
Proof.
  destruct (run_survives_poll_failures clock_thirds gateway_down process_quiet
              None no_args (mkKwds (Some 1) None None))
    as (Hfail & _ & _ & Hforever).
  split.
  - destruct (Hfail (mkRunState None 0 0 0) world0
                (mkExc IOError "connection lost") (mkRunState None 0 0 0)
                (mkWorld 1 1 0
                   [ Log INFO (Premature (fsub (clock_thirds 0) 0) 1);
                     Log INFO (PollingStarted (fsub (clock_thirds 0) 0) 1);
                     Read (resolve PARAMS);
                     CloseGateway ]))
      as (st' & w' & Hpoll & Hb & Hd & _).
    + reflexivity.
    + reflexivity.
    + exists st', w'. split; [exact Hpoll|]. split; [exact Hb|exact Hd].
  - intros fuel. apply Hforever.
    + split; [|split].
      * intros n ps pt e H. discriminate H.
      * intros n addresses e H. injection H as <-. reflexivity.
      * intros p v e H. discriminate H.
    + intros e. reflexivity.
    + discriminate.
    + intros i. reflexivity.
Defined.

(** * Further properties

    Properties of [loop] and [run] beyond the claims, and of [poll] and
    [main]. *)

(** ** What is added to the trace *)

Lemma emits_ret {A} P (a : A) : emits P (ret a).
Proof. intros w. exists []. split; [now rewrite app_nil_r|constructor]. Qed.

Lemma emits_raise {A} P e : emits P (@raise A e).
Proof. intros w. exists []. split; [now rewrite app_nil_r|constructor]. Qed.

Lemma emits_emit (P : Event -> Prop) e : P e -> emits P (emit e).
Proof. intros H w. exists [e]. split; [reflexivity|now constructor]. Qed.

Lemma emits_timer P clock : emits P (timer clock).
Proof. intros w. exists []. split; [now rewrite app_nil_r|constructor]. Qed.

Lemma emits_next_poll P : emits P next_poll.
Proof. intros w. exists []. split; [now rewrite app_nil_r|constructor]. Qed.

Lemma emits_next_check P : emits P next_check.
Proof. intros w. exists []. split; [now rewrite app_nil_r|constructor]. Qed.

Lemma emits_bind {A B} P (m : M A) (k : A -> M B) :
  emits P m -> (forall a, emits P (k a)) -> emits P (bind m k).
Proof.
  intros Hm Hk w. unfold bind.
  destruct (Hm w) as (ev1 & Ht1 & Hp1).
  destruct (m w) as [[a|e] w1]; cbn [snd] in *.
  - destruct (Hk a w1) as (ev2 & Ht2 & Hp2).
    exists (ev1 ++ ev2). split.
    + rewrite Ht2, Ht1, app_assoc. reflexivity.
    + apply Forall_app. split; assumption.
  - exists ev1. split; assumption.
Qed.

Lemma emits_weaken {A} (P Q : Event -> Prop) (m : M A) :
  (forall e, P e -> Q e) -> emits P m -> emits Q m.
Proof.
  intros H Hm w. destruct (Hm w) as (ev & Ht & Hp).
  exists ev. split; [assumption|]. eapply Forall_impl; eassumption.
Qed.

Lemma emits_with_via {A} (P : Event -> Prop) (m : M A) :
  P CloseGateway -> emits P m -> emits P (with_via m).
Proof.
  intros Hc Hm w. unfold with_via.
  destruct (Hm w) as (ev & Ht & Hp).
  destruct (m w) as [[a|e] w1]; cbn [snd] in *.
  - exists ev. split; assumption.
  - exists (ev ++ [CloseGateway]). split.
    + unfold bind, emit, raise. cbn [snd trace]. rewrite Ht, app_assoc. reflexivity.
    + apply Forall_app. split; [assumption|]. constructor; [assumption|constructor].
Qed.

Ltac emits_step :=
  first [ apply emits_ret | apply emits_raise | apply emits_timer
        | apply emits_next_poll | apply emits_next_check
        | apply emits_emit; exact I
        | apply emits_bind; [|intros ?] ].

Lemma loop_emits clock via cycle last_poll params pt :
  emits is_loop_event (loop clock via cycle last_poll params pt).
Proof.
  unfold loop, loop_cadence, loop_poll.
  apply emits_bind; [|intros started].
  - apply emits_bind; [apply emits_timer|intros init_poll].
    destruct last_poll as [last|]; [|apply emits_raise].
    destruct (Qltb _ _); [repeat emits_step|].
    destruct (truthy last); [|apply emits_ret].
    apply emits_bind; [|intros ?; apply emits_ret].
    destruct (Qltb 1 _); repeat emits_step.
  - apply emits_bind; [apply emits_emit; exact I|intros _].
    apply emits_bind; [|intros results; repeat emits_step].
    apply emits_with_via; [exact I|].
    apply emits_bind; [apply emits_next_poll|intros n].
    apply emits_bind; [destruct (execute_read _ _ _ _); repeat emits_step|intros _].
    destruct (execute via n params pt) as [res [e|]]; repeat emits_step.
Qed.

Lemma process_all_emits process res :
  emits is_process_event (process_all process res).
Proof.
  induction res as [|[p v] res IH]; cbn [process_all]; [apply emits_ret|].
  apply emits_bind; [apply emits_emit; exact I|intros _].
  destruct (process_call process p v); [apply emits_raise|assumption].
Qed.

Lemma run_except_emits s failure exc st :
  emits is_failure_event (run_except s failure exc st).
Proof.
  unfold run_except.
  apply emits_bind; [destruct (backoff st); apply emits_emit; exact I|intros _].
  apply emits_bind; [|intros _; apply emits_ret].
  destruct failure as [f|]; [|apply emits_ret].
  apply emits_bind; [apply emits_emit; exact I|intros _].
  destruct (f exc); [apply emits_raise|apply emits_ret].
Qed.

Lemma run_poll_emits clock via process failure s kwds st :
  emits is_poll_event (run_poll clock via process failure s kwds st).
Proof.
  intros w. unfold run_poll, run_try.
  destruct (loop_emits clock via (kw_cycle kwds) (Some (lst st)) (kw_params kwds)
              (kw_pass_thru kwds) w) as (ev1 & Ht1 & Hp1).
  assert (H1 : Forall is_poll_event ev1)
    by (eapply Forall_impl; [|exact Hp1]; intros e He; now left).
  destruct (loop _ _ _ _ _ _ w) as [[[[l d] res]|e] w1]; cbn [snd] in Ht1.
  - destruct (process_all_emits process res w1) as (ev2 & Ht2 & Hp2).
    assert (H2 : Forall is_poll_event ev2)
      by (eapply Forall_impl; [|exact Hp2]; intros e He; right; now left).
    destruct (process_all process res w1) as [[u|e] w2]; cbn [snd] in Ht2.
    + exists (ev1 ++ ev2). split.
      * cbn [snd]. rewrite Ht2, Ht1, app_assoc. reflexivity.
      * apply Forall_app. split; assumption.
    + assert (H12 : trace w2 = trace w ++ ev1 ++ ev2)
        by (rewrite Ht2, Ht1, app_assoc; reflexivity).
      destruct (is_Exception e).
      * destruct (emits_bind is_failure_event
                   (run_except s failure e (set_lst_dly l d st))
                   (fun st'' => ret (Failed e, st''))
                   (run_except_emits s failure e _)
                   (fun a => emits_ret _ _) w2) as (ev3 & Ht3 & Hp3).
        exists ((ev1 ++ ev2) ++ ev3). split.
        -- rewrite Ht3, H12, !app_assoc. reflexivity.
        -- apply Forall_app. split; [apply Forall_app; split; assumption|].
           eapply Forall_impl; [|exact Hp3]. intros e' He'. right; now right.
      * exists (ev1 ++ ev2). split; [exact H12|].
        apply Forall_app. split; assumption.
  - destruct (is_Exception e).
    + destruct (emits_bind is_failure_event
                 (run_except s failure e st)
                 (fun st'' => ret (Failed e, st''))
                 (run_except_emits s failure e _)
                 (fun a => emits_ret _ _) w1) as (ev3 & Ht3 & Hp3).
      exists (ev1 ++ ev3). split.
      * rewrite Ht3, Ht1, app_assoc. reflexivity.
      * apply Forall_app. split; [assumption|].
        eapply Forall_impl; [|exact Hp3]. intros e' He'. right; now right.
    + exists ev1. split; assumption.
Qed.

Lemma poll_event_sleep_within l e : is_poll_event e -> sleep_within l e.
Proof.
  destruct e; try (intros _; exact I).
  intros [H|[H|H]]; destruct H.
Qed.

Lemma sleep_emits l d :
  d <= l -> emits (sleep_within l) (sleep d).
Proof.
  intros Hd. unfold sleep. destruct (Qltb d 0) eqn:E; [apply emits_raise|].
  apply Qltb_ge in E. apply emits_emit. split; assumption.
Qed.

Lemma py_min_le_l a b : py_min a b <= a.
Proof. rewrite py_min_Qmin. apply Q.le_min_l. Qed.

Lemma run_iteration_emits clock via process failure s kwds st :
  emits (sleep_within (latency s))
        (run_iteration clock via process failure s kwds st).
Proof.
  unfold run_iteration, run_condition.
  apply emits_bind; [repeat emits_step|intros go_on].
  destruct (negb go_on); [apply emits_ret|].
  apply emits_bind; [apply emits_timer|intros now].
  destruct (Qltb _ _).
  - apply emits_bind; [|intros _; apply emits_ret].
    apply sleep_emits, py_min_le_l.
  - apply emits_bind; [|intros r; repeat emits_step].
    eapply emits_weaken; [|apply run_poll_emits].
    intros e. apply poll_event_sleep_within.
Qed.

Lemma run_loop_emits fuel clock via process failure s kwds :
  forall st, emits (sleep_within (latency s))
                   (run_loop fuel clock via process failure s kwds st).
Proof.
  induction fuel as [|fuel IH]; intros st; cbn [run_loop]; [apply emits_ret|].
  apply emits_bind; [apply run_iteration_emits|intros r].
  destruct (fst r); [apply emits_ret|apply IH..].
Qed.

(** X1.  However long [run] goes on and however it ends, every sleep it makes
    is at most [latency] seconds long and never negative: the [done] flag is
    looked at again within that time. *)
Theorem run_sleeps_within_latency fuel clock via process failure args kwds w :
  exists events,
    trace (snd (run fuel clock via process failure args kwds w)) = trace w ++ events /\
    Forall (sleep_within (latency (run_settings args kwds))) events.
Proof.
  apply (emits_bind _ (run_init clock)).
  - unfold run_init. repeat emits_step.
  - intros st. apply run_loop_emits.
Qed.

(** X2.  A pass of [run] in which [loop] returns and [process] accepts every
    pair: [process] has been called once for each pair, in the order of the
    result, and nothing else has happened since [loop] returned; the back-off
    is cleared, and [lst] and [dly] are the start and the delay that [loop]
    returned. *)
Theorem run_poll_completed clock via process failure s kwds st w last' delay res w1 :
  loop clock via (kw_cycle kwds) (Some (lst st)) (kw_params kwds)
       (kw_pass_thru kwds) w = (Ok (last', delay, res), w1) ->
  (forall p v, In (p, v) res -> process_call process p v = None) ->
  run_poll clock via process failure s kwds st w
    = (Ok (Polled, mkRunState None last' delay (beg st)),
       mkWorld (ticks w1) (polls w1) (checks w1) (trace w1 ++ process_events res)).
Proof.
  intros Hloop Hres. unfold run_poll, run_try. rewrite Hloop.
  rewrite (process_all_returns process res w1 Hres). reflexivity.
Qed.

Lemma run_poll_completed_witness :
  exists w',
    run_poll clock_thirds gateway_steady process_quiet None
             (mkSettings 1 (3 # 2) 10 (1 # 2)) (mkKwds (Some 1) None None)
             (mkRunState (Some 1) 0 1 0) world0
      = (Ok (Polled, mkRunState None 0 (fsub (fadd 0 1) (clock_thirds 1)) 0), w') /\
    In (Process (PName "Motor Velocity") (VNum 0)) (trace w').
Proof.
  eexists. split.
  - apply (run_poll_completed clock_thirds gateway_steady process_quiet None
             (mkSettings 1 (3 # 2) 10 (1 # 2)) (mkKwds (Some 1) None None)
             (mkRunState (Some 1) 0 1 0) world0
             0 (fsub (fadd 0 1) (clock_thirds 1))
             [(PName "Output Current", VNum 0); (PName "Motor Velocity", VNum 0)]
             (mkWorld 2 1 0
                [ Log INFO (Premature (fsub (clock_thirds 0) 0) 1);
                  Log INFO (PollingStarted (fsub (clock_thirds 0) 0) 1);
                  Read (resolve PARAMS);
                  finished_note 1 0 (clock_thirds 0) (clock_thirds 1) ])).
    + by_evaluation.
    + intros p v H. reflexivity.
  - cbn [trace process_events map fst snd app]. do 5 right. left. reflexivity.
Defined.

(** X3.  A pass of [run] in which [loop] itself raises an [Exception]:
    [process] is not called (the events up to the [except] clause are all
    [loop]'s own), [lst] keeps the start it had, so the cadence is not
    advanced by a failed poll, and the back-off becomes the pending delay:
    [backoff_min] if it was inactive, and otherwise the back-off before times
    [backoff_multiplier], a product of floats, capped at [backoff_max].  The
    failure is logged with it, at NORMAL the first time and at DETAIL after,
    and [failure], if given, is called; if it raises, its exception leaves
    [run]. *)
Theorem run_poll_loop_failed clock via process failure s kwds st w e w1 :
  loop clock via (kw_cycle kwds) (Some (lst st)) (kw_params kwds)
       (kw_pass_thru kwds) w = (Raise e, w1) ->
  is_Exception e = true ->
  exists b events,
    match backoff st with
    | None => b = backoff_min s
    | Some b0 =>
        b == Qmin (fmul b0 (backoff_multiplier s)) (backoff_max s) /\
        (b = fmul b0 (backoff_multiplier s) \/ b = backoff_max s)
    end /\
    run_poll clock via process failure s kwds st w
      = (match failure_raises failure e with
         | None => Ok (Failed e, mkRunState (Some b) (lst st) b (beg st))
         | Some e' => Raise e'
         end,
         mkWorld (ticks w1) (polls w1) (checks w1)
                 (trace w ++ events
                    ++ [match backoff st with
                        | None => Log NORMAL (PollingFailure b e)
                        | Some _ => Log DETAIL (PollingBackoff b e)
                        end]
                    ++ match failure with
                       | None => []
                       | Some _ => [Failure e]
                       end)) /\
    Forall is_loop_event events.
Proof.
  intros Hloop Hex.
  destruct (loop_emits clock via (kw_cycle kwds) (Some (lst st)) (kw_params kwds)
              (kw_pass_thru kwds) w) as (events & Ht & Hp).
  rewrite Hloop in Ht. cbn [snd] in Ht.
  exists (next_backoff s (backoff st)), events. split; [|split; [|assumption]].
  - unfold next_backoff. destruct (backoff st) as [b0|]; [|reflexivity].
    split; [apply py_min_Qmin|].
    unfold py_min. destruct (Qltb _ _); [right|left]; reflexivity.
  - assert (T : run_try clock via process kwds st w = ((Raise e, st), w1))
      by (unfold run_try; now rewrite Hloop).
    rewrite (run_poll_raised _ _ _ _ _ _ _ _ _ _ _ T Hex), Ht, <- app_assoc.
    unfold failure_events, failure_note.
    destruct st as [[b0|] l d g], failure; reflexivity.
Qed.

(** A failed poll with an active back-off of 1.5 (two failures before) and
    the settings 1.0, 1.5, 10.0: the back-off and the delay become 2.25, the
    start stays 7; and one with an active back-off of 9.0, which is capped at
    10.0. *)
Lemma run_poll_loop_failed_witness :
  (exists events w',
     run_poll clock_thirds gateway_down process_quiet None
              (mkSettings 1 (3 # 2) 10 (1 # 2)) (mkKwds (Some 1) None None)
              (mkRunState (Some (3 # 2)) 7 0 0) world0
       = (Ok (Failed (mkExc IOError "connection lost"),
              mkRunState (Some (9 # 4)) 7 (9 # 4) 0), w') /\
     last (trace w') CloseGateway
       = Log DETAIL (PollingBackoff (9 # 4) (mkExc IOError "connection lost")) /\
     Forall is_loop_event events) /\
  (exists events w',
     run_poll clock_thirds gateway_down process_quiet None
              (mkSettings 1 (3 # 2) 10 (1 # 2)) (mkKwds (Some 1) None None)
              (mkRunState (Some 9) 7 0 0) world0
       = (Ok (Failed (mkExc IOError "connection lost"),
              mkRunState (Some 10) 7 10 0), w') /\
     Forall is_loop_event events).
Proof.
  split.
  - destruct (run_poll_loop_failed clock_thirds gateway_down process_quiet None
                (mkSettings 1 (3 # 2) 10 (1 # 2)) (mkKwds (Some 1) None None)
                (mkRunState (Some (3 # 2)) 7 0 0) world0
                (mkExc IOError "connection lost")
                (mkWorld 1 1 0
                   [ Log INFO (Premature (fsub (clock_thirds 0) 7) 1);
                     Log INFO (PollingStarted (fsub (clock_thirds 0) 7) 1);
                     Read (resolve PARAMS);
                     CloseGateway ]))
      as (b & events & Hb & Hpoll & Hevents).
    + by_evaluation.
    + reflexivity.
    + assert (E : b = 9 # 4).
      { clear - Hpoll. vm_compute in Hpoll. congruence. }
      rewrite E in Hpoll.
      exists events. eexists. split; [exact Hpoll|].
      split; [|exact Hevents].
      unfold world0. cbn [trace backoff app]. apply last_last.
  - destruct (run_poll_loop_failed clock_thirds gateway_down process_quiet None
                (mkSettings 1 (3 # 2) 10 (1 # 2)) (mkKwds (Some 1) None None)
                (mkRunState (Some 9) 7 0 0) world0
                (mkExc IOError "connection lost")
                (mkWorld 1 1 0
                   [ Log INFO (Premature (fsub (clock_thirds 0) 7) 1);
                     Log INFO (PollingStarted (fsub (clock_thirds 0) 7) 1);
                     Read (resolve PARAMS);
                     CloseGateway ]))
      as (b & events & Hb & Hpoll & Hevents).
    + by_evaluation.
    + reflexivity.
    + assert (E : b = 10).
      { clear - Hpoll. vm_compute in Hpoll. congruence. }
      rewrite E in Hpoll.
      exists events. eexists. split; [exact Hpoll|exact Hevents].
Defined.

Lemma run_poll_raises_no_Exception clock via process failure s kwds st w e w' :
  never_raises failure ->
  run_poll clock via process failure s kwds st w = (Raise e, w') ->
  is_Exception e = false.
Proof.
  intros Hf. unfold run_poll.
  destruct (run_try clock via process kwds st w) as [[[u|e0] st1] w1]; [discriminate|].
  destruct (is_Exception e0) eqn:E.
  - unfold bind. rewrite run_except_eq, (Hf e0). discriminate.
  - intros H; injection H as <- _. assumption.
Qed.

Lemma run_iteration_raises_no_Exception clock via process failure s kwds st w e w' :
  never_raises failure ->
  0 <= latency s ->
  run_iteration clock via process failure s kwds st w = (Raise e, w') ->
  is_Exception e = false.
Proof.
  intros Hf Hl. unfold run_iteration, run_condition.
  unfold bind at 1. unfold bind at 1. unfold next_check, ret at 1.
  destruct (negb _); [discriminate|].
  unfold bind at 1. unfold timer at 1. cbn [ticks polls checks trace].
  destruct (Qltb _ (dly st)) eqn:E.
  - apply Qltb_lt in E. unfold bind.
    rewrite sleep_returns by (try apply fsub_nonneg; lra). discriminate.
  - unfold bind at 1.
    destruct (run_poll _ _ _ _ _ _ _ _) as [[r|e0] w0] eqn:P.
    + unfold bind, timer, ret. discriminate.
    + intros H; injection H as <- _.
      eapply run_poll_raises_no_Exception; eassumption.
Qed.

Lemma run_loop_raises_no_Exception fuel clock via process failure s kwds :
  never_raises failure ->
  0 <= latency s ->
  forall st w e w',
    run_loop fuel clock via process failure s kwds st w = (Raise e, w') ->
    is_Exception e = false.
Proof.
  intros Hf Hl. induction fuel as [|fuel IH]; intros st w e w'; [discriminate|].
  cbn [run_loop]. unfold bind.
  destruct (run_iteration clock via process failure s kwds st w)
    as [[[it st1]|e0] w1] eqn:R.
  - cbn [fst snd]. destruct it; [discriminate|apply IH..].
  - intros H; injection H as <- _.
    eapply run_iteration_raises_no_Exception; eassumption.
Qed.

(** X4.  With a [failure] callback that returns (or none) and a latency that
    is not negative, no [Exception] ever leaves [run], whatever the gateway
    and [process] do: an exception that does leave it is a KeyboardInterrupt
    or a SystemExit. *)
Theorem run_raises_no_Exception fuel clock via process failure args kwds w e w' :
  never_raises failure ->
  0 <= latency (run_settings args kwds) ->
  run fuel clock via process failure args kwds w = (Raise e, w') ->
  is_Exception e = false.
Proof.
  intros Hf Hl. unfold run, run_init. unfold bind at 1 2. unfold timer, ret at 1.
  apply run_loop_raises_no_Exception; assumption.
Qed.

Lemma run_raises_no_Exception_witness :
  exists e w',
    run 3 clock_thirds gateway_interrupted process_quiet None no_args
        (mkKwds (Some 1) None None) world0 = (Raise e, w') /\
    is_Exception e = false.
Proof.
  do 2 eexists. split; [reflexivity|].
  eapply (run_raises_no_Exception 3 clock_thirds gateway_interrupted
            process_quiet None no_args (mkKwds (Some 1) None None) world0).
  - intros e. reflexivity.
  - discriminate.
  - reflexivity.
Defined.

Lemma backoff_nth_le s k :
  backoff_nth s k <= Qmax (backoff_min s) (backoff_max s).
Proof.
  destruct k as [|k]; cbn [backoff_nth].
  - apply Q.le_max_l.
  - rewrite py_min_Qmin.
    apply Qle_trans with (backoff_max s); [apply Q.le_min_r|apply Q.le_max_r].
Qed.

Lemma backoff_follows_within s passes :
  forall k, backoff_follows s k passes ->
  Forall (fun p => backoff_within (Qmax (backoff_min s) (backoff_max s)) (snd p)) passes.
Proof.
  induction passes as [|[it st] passes IH]; intros k H; [constructor|].
  cbn [backoff_follows] in H. destruct H as (Hb & _ & Hrest).
  constructor; [|eapply IH; eassumption].
  cbn [snd]. unfold backoff_within. rewrite Hb.
  destruct (failures_after it k); cbn [expected_backoff]; [exact I|apply backoff_nth_le].
Qed.

(** X6.  Along the passes of any run the back-off, when active, never
    exceeds the larger of [backoff_min] and [backoff_max], whatever the
    multiplier. *)
Theorem run_backoff_bounded fuel clock via process failure args kwds w :
  let s := run_settings args kwds in
  Forall (fun p => backoff_within (Qmax (backoff_min s) (backoff_max s)) (snd p))
         (run_passes fuel clock via process failure args kwds w).
Proof.
  intros s. apply (backoff_follows_within s _ 0%nat).
  unfold run_passes, run_init. unfold bind, timer, ret.
  apply run_history_follows; [reflexivity|discriminate].
Qed.

(** X7.  [run] starts with a pending delay of 0: unless the clock goes back
    between its first two readings, the first pass of the loop polls (or
    finds [done]); it never sleeps first. *)
Theorem run_first_pass_polls fuel clock via process failure args kwds w :
  clock (ticks w) <= clock (S (ticks w)) ->
  match run_passes fuel clock via process failure args kwds w with
  | [] => True
  | (it, _) :: _ => it <> Waited
  end.
Proof.
  intros Hclock. unfold run_passes, run_init. unfold bind, timer, ret.
  destruct fuel as [|fuel]; [exact I|]. cbn [run_history].
  destruct (run_iteration _ _ _ _ _ _ _ _) as [[[it st']|e] w'] eqn:R; [|exact I].
  assert (Hit : it <> Waited).
  { revert R. unfold run_iteration, run_condition.
    unfold bind at 1. unfold bind at 1. unfold next_check, ret at 1.
    destruct (negb _); [unfold ret; intros H; injection H as <- _ _; discriminate|].
    unfold bind at 1. unfold timer at 1. cbn [ticks polls checks trace beg dly].
    assert (E : Qltb (fsub (clock (S (ticks w))) (clock (ticks w))) 0 = false)
      by (apply Qltb_ge, fsub_nonneg; assumption).
    rewrite E. unfold bind at 1.
    destruct (run_poll _ _ _ _ _ _ _ _) as [[[it0 st0]|e] w0] eqn:P; [|discriminate].
    apply run_poll_backoff in P as [_ P].
    unfold bind, timer, ret. cbn [fst snd].
    intros H; injection H as <- _ _.
    destruct it0; try contradiction; discriminate. }
  destruct it; try exact Hit; discriminate.
Qed.

Lemma run_first_pass_polls_witness :
  match run_passes 3 clock_thirds gateway_steady process_quiet None no_args
                   (mkKwds (Some 1) None None) world0 with
  | [] => True
  | (it, _) :: _ => it <> Waited
  end.
Proof.
  apply (run_first_pass_polls 3 clock_thirds gateway_steady process_quiet None
           no_args (mkKwds (Some 1) None None) world0).
  discriminate.
Defined.

Lemma loop_empty_params clock via cycle last_poll pt :
  loop clock via cycle last_poll (Some []) pt = loop clock via cycle last_poll None pt.
Proof. reflexivity. Qed.

Lemma run_iteration_empty_params clock via process failure s c pt st w :
  run_iteration clock via process failure s (mkKwds c (Some []) pt) st w
  = run_iteration clock via process failure s (mkKwds c None pt) st w.
Proof. reflexivity. Qed.

Lemma run_loop_empty_params fuel clock via process failure s c pt :
  forall st w,
    run_loop fuel clock via process failure s (mkKwds c (Some []) pt) st w
    = run_loop fuel clock via process failure s (mkKwds c None pt) st w.
Proof.
  induction fuel as [|fuel IH]; intros st w; [reflexivity|].
  cbn [run_loop]. unfold bind. rewrite run_iteration_empty_params.
  destruct (run_iteration _ _ _ _ _ _ _ _) as [[[it st1]|e] w1]; [|reflexivity].
  cbn [fst snd]. destruct it; [reflexivity|apply IH..].
Qed.

(** X8.  [run] given an empty list of parameters does, pass for pass, what it
    does given none: every poll reads PARAMS. *)
Theorem run_empty_params fuel clock via process failure args c pt w :
  run fuel clock via process failure args (mkKwds c (Some []) pt) w
  = run fuel clock via process failure args (mkKwds c None pt) w.
Proof.
  unfold run, run_init, bind, timer, ret.
  apply run_loop_empty_params.
Qed.

(** X9.  [poll] gets as far as [run] exactly when it is given one source of
    a gateway and no more: a [via] and neither class, or no [via] and exactly
    one of [proxy_class] and [gateway_class], whose call with the address
    (the default one if none is given) and the other connection arguments
    returns the gateway.  The [process] it runs with is the one given, or
    else the printing one. *)
Theorem poll_setup_accepts enip_address print_pair a via process :
  snd (poll_setup enip_address print_pair a) = Ok (via, process) <->
  process = poll_process_or_print print_pair a /\
  ((poll_via a = Some via /\
    poll_proxy_class a = None /\ poll_gateway_class a = None) \/
   (poll_via a = None /\
    exists make,
      ((poll_proxy_class a = Some make /\ poll_gateway_class a = None) \/
       (poll_proxy_class a = None /\ poll_gateway_class a = Some make)) /\
      make (poll_connection enip_address a) = inr via)).
Proof.
  unfold poll_setup, poll_class, poll_via_process, poll_process_or_print,
    poll_connection.
  destruct (poll_gateway_class a) as [g|], (poll_proxy_class a) as [c|],
    (poll_via a) as [v|]; cbn [snd].
  all: try (destruct (g _) as [e|v'] eqn:G).
  all: try (destruct (c _) as [e|v'] eqn:C).
  all: split;
    [ intros H; try discriminate H; injection H as <- <-;
      (split; [reflexivity|]);
      first [ left; repeat split; reflexivity
            | right; split; [reflexivity|]; eexists; split;
              [first [left; split; reflexivity | right; split; reflexivity]
              |eassumption] ]
    | intros (-> & [(Hv & Hc & Hg) | (Hv & make & [(Hc & Hg)|(Hc & Hg)] & Hmake)]);
      try discriminate; try (injection Hv as <-); try (injection Hc as <-);
      try (injection Hg as <-); try congruence; try reflexivity ].
Qed.

(** X10.  [poll] given both classes, or a class and a [via], raises
    AssertionError at once: the clock is not read and nothing is polled. *)
Theorem poll_refuses_two_gateways fuel clock enip_address print_pair a w :
  (poll_gateway_class a <> None /\ poll_proxy_class a <> None) \/
  ((poll_gateway_class a <> None \/ poll_proxy_class a <> None) /\
   poll_via a <> None) ->
  exists msg,
    snd (poll fuel clock enip_address print_pair a) w
      = (Raise (mkExc AssertionError msg), w).
Proof.
  unfold poll, poll_setup, poll_class, poll_via_process.
  destruct (poll_gateway_class a) as [g|], (poll_proxy_class a) as [c|],
    (poll_via a) as [v|]; cbn [snd]; unfold raise;
    intros [[H1 H2]|[[H1|H1] H2]];
    try (now elim H1); try (now elim H2); eexists; reflexivity.
Qed.

Lemma poll_refuses_two_gateways_witness :
  exists msg,
    snd (poll 5 clock_thirds ("localhost"%string, 44818%Z) (fun _ _ => None)
              (poll_args_of (Some proxy_connecting) None (Some gateway_steady) None))
        world0
      = (Raise (mkExc AssertionError msg), world0).
Proof.
  apply poll_refuses_two_gateways.
  right. split; [right|]; discriminate.
Defined.

(** X11.  The deprecated [gateway_class] argument does what [proxy_class]
    does; the only difference is the PendingDeprecationWarning. *)
Theorem poll_gateway_class_is_proxy_class fuel clock enip_address print_pair
    make address depth multiple timeout route_path send_path via process failure
    run_args kwds :
  let deprecated :=
    mkPollArgs None address depth multiple timeout route_path send_path
               (Some make) via process failure run_args kwds in
  let current :=
    mkPollArgs (Some make) address depth multiple timeout route_path send_path
               None via process failure run_args kwds in
  snd (poll fuel clock enip_address print_pair deprecated)
    = snd (poll fuel clock enip_address print_pair current) /\
  fst (poll fuel clock enip_address print_pair current) = [] /\
  exists msg,
    fst (poll fuel clock enip_address print_pair deprecated)
      = [PendingDeprecationWarning msg].
Proof.
  cbv zeta. unfold poll, poll_setup, poll_class, poll_via_process.
  cbn [poll_gateway_class poll_proxy_class poll_via poll_address poll_process
       poll_depth poll_multiple poll_timeout poll_send_path poll_route_path
       poll_failure poll_run_args poll_kwds fst snd].
  split; [|split; [|eexists]]; destruct via; try reflexivity;
    destruct (make _); reflexivity.
Qed.

Lemma run_never_returns_without_done fuel clock via process failure args kwds w w' :
  (forall i, process_done process i <> Some true) ->
  run fuel clock via process failure args kwds w <> (Ok Returned, w').
Proof.
  intros Hd H. revert H. unfold run, run_init, bind, timer, ret. intros H.
  apply run_loop_returned in H as [i Hi]. now apply (Hd i).
Qed.

Lemma poll_setup_process enip_address print_pair a via process :
  snd (poll_setup enip_address print_pair a) = Ok (via, process) ->
  poll_process_or_print print_pair a = process.
Proof.
  unfold poll_setup, poll_class, poll_via_process, poll_process_or_print.
  destruct (poll_gateway_class a) as [g|], (poll_proxy_class a) as [c|],
    (poll_via a) as [v|]; cbn [snd]; try discriminate.
  all: try (destruct (g _)); try (destruct (c _)); try discriminate.
  all: intros H; injection H as _ <-; reflexivity.
Qed.

(** X12.  [poll] with no [process] given never returns: the printing
    [process] has no [done] attribute, so the call ends only by an
    exception. *)
Theorem poll_default_process_never_returns fuel clock enip_address print_pair a w w' :
  poll_process a = None ->
  snd (poll fuel clock enip_address print_pair a) w <> (Ok Returned, w').
Proof.
  intros Hp. unfold poll.
  destruct (poll_setup enip_address print_pair a) as [warned [[via process]|e]] eqn:S;
    cbn [snd]; [|discriminate].
  apply run_never_returns_without_done.
  replace process with (poll_process_or_print print_pair a)
    by (now apply (poll_setup_process enip_address print_pair a via); rewrite S).
  unfold poll_process_or_print. rewrite Hp. discriminate.
Qed.

Lemma poll_default_process_never_returns_witness :
  snd (poll 5 clock_thirds ("localhost"%string, 44818%Z) (fun _ _ => None)
            (poll_args_of None None (Some gateway_steady) None))
      world0
  <> (Ok Returned, world0).
Proof.
  apply poll_default_process_never_returns. reflexivity.
Defined.

Lemma split1_without sep s :
  has_char sep s = false -> split1 sep s = [s].
Proof.
  induction s as [|c s IH]; [reflexivity|]. cbn [has_char split1].
  intros H. apply orb_false_iff in H as [H1 H2]. rewrite H1, (IH H2). reflexivity.
Qed.

Lemma split1_at sep s t :
  has_char sep s = false -> split1 sep (s ++ String sep t) = [s; t].
Proof.
  induction s as [|c s IH]; cbn [has_char split1 String.append].
  - intros _. now rewrite Ascii.eqb_refl.
  - intros H. apply orb_false_iff in H as [H1 H2]. rewrite H1, (IH H2). reflexivity.
Qed.


(** X13.  How [main] reads [--address]: the text is cut at its first colon
    only; an interface that is empty stands for the default interface; a port
    that is missing or empty stands for the default port, and any other port
    is converted with [int]. *)
Theorem main_address_cases x interface port :
  has_char ":" interface = false ->
  main_address x interface
    = Ok (or_default interface (fst (enip_address x)) (fun s => s),
          snd (enip_address x)) /\
  main_address x (interface ++ String ":" port)
    = and_then (or_default port (Ok (snd (enip_address x)))
                  (fun s => of_sum (py_int x s)))
        (fun p => Ok (or_default interface (fst (enip_address x)) (fun s => s), p)).
Proof.
  intros H. unfold main_address, or_default.
  rewrite (split1_without _ _ H), (split1_at _ _ port H).
  cbn [length Nat.leb Nat.ltb negb andb nth].
  split; [reflexivity|].
  destruct (nonempty port); reflexivity.
Qed.

Lemma main_address_cases_witness :
  main_address externals_ab "10.0.0.7" = Ok ("10.0.0.7"%string, 44818%Z) /\
  main_address externals_ab "10.0.0.7:2222" = Ok ("10.0.0.7"%string, 2222%Z).
Proof.
  apply (main_address_cases externals_ab "10.0.0.7" "2222"). reflexivity.
Defined.



Lemma interrupt_or_Exception e : is_interrupt e = negb (is_Exception e).
Proof. unfold is_interrupt, is_Exception. destruct (exc_class e); reflexivity. Qed.

Lemma main_try_never_raises polling w e w' :
  main_try polling w <> (Raise e, w').
Proof.
  unfold main_try. destruct (polling w) as [[[|st]|e0] w0]; try discriminate.
  rewrite interrupt_or_Exception. destruct (is_Exception e0); discriminate.
Qed.

(** X15.  [main] raises exactly when working out its arguments does (the
    gateway name, the address, the depth, the timeout, the cycle or the route
    path), and then before anything is polled: these conversions are outside
    the [try], and every exception that polling can raise (an [Exception], a
    KeyboardInterrupt or a SystemExit) is turned into a return value. *)
Theorem main_raises_only_for_arguments fuel clock x args w e w' :
  snd (main fuel clock x args) w = (Raise e, w') <->
  main_settle x args = Raise e /\ w' = w.
Proof.
  unfold main. destruct (main_settle x args) as [c|e0].
  - destruct (poll _ _ _ _ _) as [warned polling]. cbn [snd]. split.
    + intros H. now apply main_try_never_raises in H.
    + intros [H _]. discriminate.
  - cbn [snd]. unfold raise. split.
    + intros H; injection H as <- <-. split; reflexivity.
    + intros [H ->]. injection H as <-. reflexivity.
Qed.

Lemma main_poll_setup x args c :
  poll_setup (enip_address x) (print_pair x) (main_poll_args args c)
  = ([], match settled_proxy_class c
                 (poll_connection (enip_address x) (main_poll_args args c)) with
         | inl e => Raise e
         | inr via => Ok (via, print_process (print_pair x))
         end).
Proof. reflexivity. Qed.

(** X16.  When [main] returns, it returns 0 or 1, never [None]: 0 after a
    KeyboardInterrupt or SystemExit, logged at INFO, and 1 after an
    [Exception], logged at WARNING.  The [Exception] is always that of the
    proxy class failing to make the gateway, before anything is polled: a
    failed poll never ends [main]. *)
Theorem main_returns fuel clock x args w value logged w' :
  snd (main fuel clock x args) w = (Ok (MainReturned value logged), w') ->
  exists c e,
    main_settle x args = Ok c /\
    ((value = Some 0%Z /\ logged = Some (logging.INFO, e) /\
      is_interrupt e = true) \/
     (value = Some 1%Z /\ logged = Some (logging.WARNING, e) /\
      is_Exception e = true /\ w' = w /\
      settled_proxy_class c
        (poll_connection (enip_address x) (main_poll_args args c)) = inl e)).
Proof.
  unfold main. destruct (main_settle x args) as [c|e0]; [|discriminate].
  unfold poll. rewrite main_poll_setup. cbn [snd].
  destruct (settled_proxy_class c _) as [e|via] eqn:Make; unfold main_try.
  - unfold raise. rewrite interrupt_or_Exception.
    destruct (is_Exception e) eqn:E; cbn [negb];
      intros H; injection H as <- <- <-; exists c, e; (split; [reflexivity|]).
    + right. repeat split; assumption.
    + left. repeat split. now rewrite interrupt_or_Exception, E.
  - destruct (run _ _ _ _ _ _ _ w) as [[[|st]|e] w1] eqn:R.
    + exfalso. revert R. apply run_never_returns_without_done. discriminate.
    + discriminate.
    + assert (E : is_Exception e = false).
      { revert R. unfold run, run_init, bind, timer, ret.
        apply run_loop_raises_no_Exception.
        - intros e'. reflexivity.
        - discriminate. }
      rewrite interrupt_or_Exception, E. cbn [negb].
      intros H; injection H as <- <- <-. exists c, e. split; [reflexivity|].
      left. repeat split. now rewrite interrupt_or_Exception, E.
Qed.

Lemma main_returns_witness :
  exists c e,
    main_settle externals_ab args_unplugged = Ok c /\
    ((Some 1%Z = Some 0%Z /\
      Some (logging.WARNING, mkExc IOError "connection refused")
        = Some (logging.INFO, e) /\
      is_interrupt e = true) \/
     (Some 1%Z = Some 1%Z /\
      Some (logging.WARNING, mkExc IOError "connection refused")
        = Some (logging.WARNING, e) /\
      is_Exception e = true /\ world0 = world0 /\
      settled_proxy_class c
        (poll_connection (enip_address externals_ab)
           (main_poll_args args_unplugged c)) = inl e)).
Proof.
  apply (main_returns 5 clock_thirds externals_ab args_unplugged world0
           (Some 1%Z)
           (Some (logging.WARNING, mkExc IOError "connection refused")) world0).
  reflexivity.
Defined.
